(** * Video services of etna-myapi: a shallow embedding and its properties

    Source: [src/services/video.services.ts] (both revisions that the
    repository holds).  The services build file paths out of strings with
    [split], [slice], [pop] and [join], read the clock with [Date.now()],
    move and remove files, and save or destroy a [Video] row.

    Layout of this development:
    - [Js]        the string and array primitives of the host language;
    - [Model]     resolutions, the format map, the video object, requests;
    - [Paths]     the pure path builders;
    - [Number]    the doubles the queries compute with;
    - [Query]     the filter and pagination of [getVideos], both revisions;
    - [Platform]  clock, filesystem and record store as an interface, and a
                  small monad in which [updateVideoName] and [deleteVideo]
                  are written;
    - [Encode]    [encodeVideo] as a promise settled by engine signals;
    - [Trace]     how to read the events of a run;
    - [Disk]      a concrete platform to run the services on;
    - the lemmas and theorems, by service. *)

From Stdlib Require Import String Ascii List ZArith Lia Bool.
From Stdlib Require Import DecimalString DecimalZ DecimalPos.
From Stdlib Require Import QArith Qround.
Import ListNotations.

Local Open Scope list_scope.
Local Open Scope string_scope.

(* ------------------------------------------------------------------ *)
(** ** Host-language primitives *)

Module Js.

(** [s.split(sep)] for a one-character separator.  The result is never
    empty: [""] splits into [[""]]. *)
Fixpoint split (sep : ascii) (s : string) : list string :=
  match s with
  | EmptyString => [EmptyString]
  | String a rest =>
      if Ascii.eqb a sep then EmptyString :: split sep rest
      else match split sep rest with
           | [] => [String a EmptyString]
           | seg :: segs => String a seg :: segs
           end
  end.

(** [arr.join(sep)]. *)
Fixpoint join (sep : string) (l : list string) : string :=
  match l with
  | [] => EmptyString
  | [x] => x
  | x :: tl => x ++ sep ++ join sep tl
  end.

(** Relative index of [Array.prototype.slice]: a negative index counts
    from the end, and everything is clamped to [0 .. len]. *)
Definition rel_index (len k : Z) : Z :=
  if (k <? 0)%Z then Z.max (len + k) 0 else Z.min k len.

(** [arr.slice(start, stop)]; [stop = None] is the one-argument form. *)
Definition slice {A : Type} (start : Z) (stop : option Z) (l : list A)
  : list A :=
  let len := Z.of_nat (length l) in
  let from := rel_index len start in
  let upto := match stop with
              | None => len
              | Some e => rel_index len e
              end in
  firstn (Z.to_nat (upto - from)) (skipn (Z.to_nat from) l).

(** [arr.pop()], as a value: the last element, [None] for [undefined]. *)
Fixpoint pop {A : Type} (l : list A) : option A :=
  match l with
  | [] => None
  | [x] => Some x
  | _ :: tl => pop tl
  end.

(** [String(arr)]: what [+] does to an array operand. *)
Definition array_to_string (l : list string) : string := join "," l.

(** [String(n)] for an integral number: the decimal rendering, which is
    what the host language prints below 10^21 in magnitude. *)
Definition number_to_string (n : Z) : string :=
  NilZero.string_of_int (Z.to_int n).

(** [if (s)] on a string. *)
Definition truthy (s : string) : bool :=
  match s with
  | EmptyString => false
  | String _ _ => true
  end.

(** Does the character occur in the string? *)
Fixpoint has_char (c : ascii) (s : string) : bool :=
  match s with
  | EmptyString => false
  | String a rest => Ascii.eqb a c || has_char c rest
  end.

(** [s.startsWith(p)]. *)
Definition starts_with (p s : string) : bool := String.prefix p s.

(** The characters a rendered integer is made of. *)
Definition digit_or_minus (c : ascii) : bool := has_char c "-0123456789".

(** The last character, when there is one; [s.endsWith(c)] for a
    one-character [c] asks whether it is [c]. *)
Fixpoint last_char (s : string) : option ascii :=
  match s with
  | EmptyString => None
  | String a EmptyString => Some a
  | String _ rest => last_char rest
  end.

End Js.

(** Errors are carried by their message. *)
Definition Error := string.

(* ------------------------------------------------------------------ *)
(** ** Data model *)

Module Model.

(** The six target heights of [encodeVideo]'s [resolution] parameter. *)
Inductive Resolution := R1080 | R720 | R480 | R360 | R240 | R144.

Definition height (r : Resolution) : Z :=
  match r with
  | R1080 => 1080 | R720 => 720 | R480 => 480
  | R360 => 360 | R240 => 240 | R144 => 144
  end%Z.

(** Modelled from the spec: the declaration of [Video] (models/video.model)
    is not among the sources.  [format] maps a resolution of the fixed set
    to the path of its derived file; [None] is a key that is absent (or
    holds [undefined]/[null]), [Some p] a key holding the string [p]. *)
Record Format := mkFormat {
  p144 : option string; p240 : option string; p360 : option string;
  p480 : option string; p720 : option string; p1080 : option string
}.

Definition empty_format : Format := mkFormat None None None None None None.

(** [video.format[r]]. *)
Definition format_get (r : Resolution) (f : Format) : option string :=
  match r with
  | R144 => p144 f | R240 => p240 f | R360 => p360 f
  | R480 => p480 f | R720 => p720 f | R1080 => p1080 f
  end.

(** [video.format[r] = p]. *)
Definition format_set (r : Resolution) (p : string) (f : Format) : Format :=
  match r with
  | R144 => mkFormat (Some p) (p240 f) (p360 f) (p480 f) (p720 f) (p1080 f)
  | R240 => mkFormat (p144 f) (Some p) (p360 f) (p480 f) (p720 f) (p1080 f)
  | R360 => mkFormat (p144 f) (p240 f) (Some p) (p480 f) (p720 f) (p1080 f)
  | R480 => mkFormat (p144 f) (p240 f) (p360 f) (Some p) (p720 f) (p1080 f)
  | R720 => mkFormat (p144 f) (p240 f) (p360 f) (p480 f) (Some p) (p1080 f)
  | R1080 => mkFormat (p144 f) (p240 f) (p360 f) (p480 f) (p720 f) (Some p)
  end.

(** Integer-like keys of an object are enumerated in ascending order. *)
Definition all_resolutions : list Resolution :=
  [R144; R240; R360; R480; R720; R1080].

Definition is_some {A : Type} (o : option A) : bool :=
  match o with Some _ => true | None => false end.

(** [Object.keys(video.format)]. *)
Definition object_keys (f : Format) : list Resolution :=
  filter (fun r => is_some (format_get r f)) all_resolutions.

(** Modelled from the spec: the declaration of [Video] is not among the
    sources.  The services only ever use [id] through its rendering in a
    string, so it is kept in that form; [user] and [duration] play no part
    in the services modelled here. *)
Record Video := mkVideo {
  id : string;
  source : string;
  format : Format
}.

Definition with_source (p : string) (v : Video) : Video :=
  mkVideo (id v) p (format v).

Definition with_format (r : Resolution) (p : string) (v : Video) : Video :=
  mkVideo (id v) (source v) (format_set r p (format v)).

(** The part of an upload request that [generateVideoPath] reads:
    [req.body.name] and [req.files?.source]. *)
Record UploadedFile := mkFile { name : string }.

Record Request := mkRequest {
  body_name : string;
  files_source : option UploadedFile
}.

End Model.

(* ------------------------------------------------------------------ *)
(** ** Path builders

    [Date.now()] is an argument of the pure builders: [now] is the reading
    the call obtained. *)

Module Paths.
Import Js Model.

(** What string concatenation does to a possibly [undefined] operand. *)
Definition or_undefined (o : option string) : string :=
  match o with Some s => s | None => "undefined" end.

(** [p.split("/").slice(0, -1).join("/")], the directory of [p]. *)
Definition dirname (p : string) : string :=
  join "/" (slice 0 (Some (-1)%Z) (split "/" p)).

(** [p.split(".").pop()], the extension of [p]. *)
Definition extension (p : string) : option string := pop (split "." p).

(** [generateVideoPath]; [None] is the [TypeError] raised by [file.name]
    when the request carries no [source] file. *)
Definition generateVideoPath (now : Z) (videoFolder : string)
    (req : Request) : option string :=
  match files_source req with
  | None => None
  | Some file =>
      Some (videoFolder ++ "/" ++ number_to_string now ++ "_" ++
            body_name req ++ "." ++
            or_undefined (pop (split "." (name file))))
  end.

(** [getVideoName]; [None] is [undefined]. *)
Definition getVideoName (video : Video) : option string :=
  match pop (split "/" (source video)) with
  | None => None
  | Some file => Some (join "_" (slice 1 None (split "_" file)))
  end.

Definition generateEncodedVideoFolderPath (video : Video) (resolution : Z)
  : string :=
  let outputPath := dirname (source video) in
  outputPath ++ "/" ++ id video ++ "/" ++ number_to_string resolution ++ "p/".

Definition generateEncodedVideoPath (now : Z) (folder fileName : string)
  : string :=
  folder ++ number_to_string now ++ "_" ++ fileName.

Definition updateVideoPath (now : Z) (oldPath newName : string) : string :=
  dirname oldPath ++ "/" ++ number_to_string now ++ "_" ++
  array_to_string (slice (-1) None (split "." newName)) ++ "." ++
  or_undefined (pop (split "." oldPath)).

(** The rename transform as the specification words it: directory and
    extension of [oldPath], a timestamp, and the last path segment of the
    new base name.  Kept apart from [updateVideoPath] to compare the
    two. *)
Definition generateRenamedPath_spec (now : Z) (oldPath newBaseName : string)
  : string :=
  dirname oldPath ++ "/" ++ number_to_string now ++ "_" ++
  or_undefined (pop (split "/" newBaseName)) ++ "." ++
  or_undefined (extension oldPath).

End Paths.

(* ------------------------------------------------------------------ *)
(** ** Numbers *)

Module Number.

(** A number of the host language is an IEEE double.  The queries compute
    with page counters only, so the model has the doubles that are
    integers and the three special values; [-0] is not kept apart from
    [0], which [===] and [||] do not tell apart either. *)
Inductive number :=
| NaN
| Infinity (negative : bool)
| Int (z : Z).

(** [Number.MAX_SAFE_INTEGER] *)
Definition max_safe_integer : Z := (2 ^ 53 - 1)%Z.

(** The double nearest to an integer, ties to the even significand; what
    rounds beyond the largest double is an infinity.  Integers below 2^53
    in magnitude are doubles themselves. *)
Definition to_double (z : Z) : number :=
  let a := Z.abs z in
  if (a <? 2 ^ 53)%Z then Int z
  else
    let e := (Z.log2 a - 52)%Z in
    let q := Z.shiftr a e in
    let r := Z.land a (Z.ones e) in
    let half := (2 ^ (e - 1))%Z in
    let q' := if ((half <? r) || ((r =? half) && Z.odd q))%Z
              then (q + 1)%Z else q in
    let m := Z.shiftl q' e in
    if (2 ^ 1024 <=? m)%Z then Infinity (z <? 0)%Z
    else Int (Z.sgn z * m)%Z.

(** [a - b] *)
Definition sub (a b : number) : number :=
  match a, b with
  | NaN, _ | _, NaN => NaN
  | Infinity s, Infinity s' => if Bool.eqb s s' then NaN else Infinity s
  | Infinity s, Int _ => Infinity s
  | Int _, Infinity s => Infinity (negb s)
  | Int x, Int y => to_double (x - y)
  end.

(** [a * b] *)
Definition mul (a b : number) : number :=
  match a, b with
  | NaN, _ | _, NaN => NaN
  | Infinity s, Infinity s' => Infinity (xorb s s')
  | Infinity s, Int z | Int z, Infinity s =>
      if (z =? 0)%Z then NaN else Infinity (xorb s (z <? 0)%Z)
  | Int x, Int y => to_double (x * y)
  end.

(** [if (n)] on a number: [0] and [NaN] are falsy. *)
Definition truthy (n : number) : bool :=
  match n with
  | NaN => false
  | Infinity _ => true
  | Int z => negb (z =? 0)%Z
  end.

(** [a || b] on numbers. *)
Definition or_else (a b : number) : number := if truthy a then a else b.

End Number.

(* ------------------------------------------------------------------ *)
(** ** [getVideos]: filter and pagination, in both revisions *)

Module Query.
Import Number.

Record Fields := mkFields {
  name : string;
  user : number;
  duration : number;
  page : number;
  perPage : number
}.

(** The filter object: each key is set or left out. *)
Record Filter := mkFilter {
  f_source : option string;      (* [{ [Op.iLike]: pattern }] *)
  f_user : option number;        (* exact match *)
  f_duration : option number     (* [{ [Op.gt]: bound }] *)
}.

(** The argument handed to [Video.findAndCountAll]. *)
Record FindOptions := mkFindOptions {
  where_and : Filter;
  limit : number;
  offset : number
}.

(** The filter builder, textually the same in both revisions. *)
Definition build_filter (fields : Fields) : Filter :=
  let filter := mkFilter None None None in
  let filter :=
    if Js.truthy (name fields)
    then mkFilter (Some ("%" ++ name fields ++ "%"))
                  (f_user filter) (f_duration filter)
    else filter in
  let filter :=
    if truthy (user fields)
    then mkFilter (f_source filter) (Some (user fields)) (f_duration filter)
    else filter in
  let filter :=
    if truthy (duration fields)
    then mkFilter (f_source filter) (f_user filter) (Some (duration fields))
    else filter in
  filter.

(** First revision: [limit: perPage, offset: perPage * (page - 1)]. *)
Module Rev1.
Definition getVideos (fields : Fields) : FindOptions :=
  mkFindOptions (build_filter fields)
                (perPage fields)
                (mul (perPage fields) (sub (page fields) (Int 1))).
End Rev1.

(** Second revision: [limit: perPage || 5,
    offset: perPage || 5 * (page - 1)]; [*] binds tighter than [||]. *)
Module Rev2.
Definition getVideos (fields : Fields) : FindOptions :=
  mkFindOptions (build_filter fields)
                (or_else (perPage fields) (Int 5))
                (or_else (perPage fields)
                         (mul (Int 5) (sub (page fields) (Int 1)))).
End Rev2.

End Query.

(* ------------------------------------------------------------------ *)
(** ** Effects: clock, filesystem, record store, logger

    The collaborators are an interface.  Every operation takes the state of
    the outside world and gives the next one; the fallible ones also say
    whether they failed.  Nothing is assumed about when they fail. *)

Class Platform (W : Type) := {
  (** [Date.now()] *)
  date_now : W -> Z * W;
  (** [fsAsync.rename(from, to)] *)
  fs_rename : string -> string -> W -> option Error * W;
  (** [fs.rm(path, cb)] *)
  fs_rm : string -> W -> option Error * W;
  (** [fs.rmdir(path, { recursive: true }, cb)] *)
  fs_rmdir : string -> W -> option Error * W;
  (** [video.save()] *)
  video_save : Model.Video -> W -> option Error * W;
  (** [video.destroy()] *)
  video_destroy : Model.Video -> W -> option Error * W
}.

(** Requests made to the collaborators. *)
Inductive Op :=
| OpRename (from to : string)
| OpRm (path : string)
| OpRmdir (path : string)
| OpSave (video : Model.Video)
| OpDestroy (video : Model.Video).

Inductive Level := LvlTrace | LvlInfo | LvlError.

(** What a run leaves behind, in order: each request with its result, each
    line handed to a logger, and each rejection nobody handles. *)
Inductive Event :=
| Did (op : Op) (failure : option Error)
| Log (category : string) (level : Level) (message : string)
| Unhandled (e : Error).

(** How an [async] function ends. *)
Inductive Outcome (A : Type) :=
| Resolved (a : A)
| Rejected (e : Error).
Arguments Resolved {A} a.
Arguments Rejected {A} e.

Section Monad.
Context {W : Type} {P : Platform W}.

(** The world and the one [Video] object the caller passed by reference:
    an assignment to [video.source] is seen by the caller whatever the
    outcome. *)
Record State := mkState { world : W; obj : Model.Video }.

Definition M (A : Type) : Type := State -> Outcome A * State * list Event.

Definition ret {A : Type} (a : A) : M A :=
  fun st => (Resolved a, st, []).

Definition throw {A : Type} (e : Error) : M A :=
  fun st => (Rejected e, st, []).

Definition bind {A B : Type} (m : M A) (k : A -> M B) : M B :=
  fun st =>
    match m st with
    | (Resolved a, st1, evs1) =>
        match k a st1 with
        | (r, st2, evs2) => (r, st2, (evs1 ++ evs2)%list)
        end
    | (Rejected e, st1, evs1) => (Rejected e, st1, evs1)
    end.

(** Reads [video]. *)
Definition read_video : M Model.Video :=
  fun st => (Resolved (obj st), st, []).

Definition write_video (v : Model.Video) : M unit :=
  fun st => (Resolved tt, mkState (world st) v, []).

Definition dateNow : M Z :=
  fun st =>
    let '(t, w) := date_now (world st) in
    (Resolved t, mkState w (obj st), []).

(** Issues a request and hands back its result, as a callback receives
    it. *)
Definition request (op : Op) : M (option Error) :=
  fun st =>
    let '(r, w) :=
      match op with
      | OpRename from to => fs_rename from to (world st)
      | OpRm path => fs_rm path (world st)
      | OpRmdir path => fs_rmdir path (world st)
      | OpSave v => video_save v (world st)
      | OpDestroy v => video_destroy v (world st)
      end in
    (Resolved r, mkState w (obj st), [Did op r]).

Definition logger (category : string) (level : Level) (message : string)
  : M unit :=
  fun st => (Resolved tt, st, [Log category level message]).

Definition unhandled (e : Error) : M unit :=
  fun st => (Resolved tt, st, [Unhandled e]).

End Monad.

Arguments State : clear implicits.
Arguments M : clear implicits.

Declare Scope effect_scope.
Delimit Scope effect_scope with effect.
Notation "x <- m ;; k" := (bind m (fun x => k))
  (at level 61, m at next level, right associativity) : effect_scope.
Notation "m ;; k" := (bind m (fun _ => k))
  (at level 61, right associativity) : effect_scope.

Section Services.
Context {W : Type} {P : Platform W}.
Import Js Model Paths.
Local Open Scope effect_scope.

(** [await p]: a failed request rejects the caller. *)
Definition await (op : Op) : M W unit :=
  r <- request op ;;
  match r with
  | Some e => throw e
  | None => ret tt
  end.

(** [for (const x of xs) body], stopping at the first rejection. *)
Fixpoint for_of {A : Type} (xs : list A) (body : A -> M W unit) : M W unit :=
  match xs with
  | [] => ret tt
  | x :: rest => body x ;; for_of rest body
  end.

(** [updateVideoPath] with its clock reading. *)
Definition updateVideoPathM (oldPath newName : string) : M W string :=
  now <- dateNow ;;
  ret (updateVideoPath now oldPath newName).

(** One turn of the loop of [updateVideoName]. *)
Definition rename_derived (newName : string) (key : Resolution) : M W unit :=
  video <- read_video ;;
  match format_get key (format video) with
  | Some oldPath =>
      if truthy oldPath then
        newPath <- updateVideoPathM oldPath newName ;;
        video <- read_video ;;
        write_video (with_format key newPath video) ;;
        await (OpRename oldPath newPath)
      else ret tt
  | None => ret tt
  end.

Definition updateVideoName_body (newName : string) : M W Video :=
  video <- read_video ;;
  let oldPath := source video in
  newPath <- updateVideoPathM oldPath newName ;;
  source' <- updateVideoPathM oldPath newName ;;
  write_video (with_source source' video) ;;
  await (OpRename oldPath newPath) ;;
  video <- read_video ;;
  for_of (object_keys (format video)) (rename_derived newName) ;;
  video <- read_video ;;
  await (OpSave video) ;;
  read_video.

(** [updateVideoName(video, newName)] started in world [w].  The result
    has the outcome, the final world and object, and the events. *)
Definition updateVideoName (video : Video) (newName : string) (w : W)
  : Outcome Video * State W * list Event :=
  updateVideoName_body newName (mkState w video).

(** The callback of [fs.rm] and [fs.rmdir]: [if (err) logger.error(err)]. *)
Definition log_if_failed (category : string) (r : option Error) : M W unit :=
  match r with
  | Some err => logger category LvlError err
  | None => ret tt
  end.

(** [deleteVideo].  The three requests are issued one after the other
    whatever the earlier ones answer; their completions are taken in the
    order of issue.  [video.destroy().then()] installs no handler: a
    rejection of [destroy] stays unhandled. *)
Definition deleteVideo_body (video : Video) : M W unit :=
  let category := "VIDEO DELETE : " ++ id video in
  r1 <- request (OpRm (source video)) ;;
  log_if_failed category r1 ;;
  r2 <- request (OpRmdir (dirname (source video) ++ "/" ++ id video)) ;;
  log_if_failed category r2 ;;
  r3 <- request (OpDestroy video) ;;
  match r3 with
  | Some e => unhandled e
  | None => ret tt
  end.

Definition deleteVideo (video : Video) (w : W)
  : Outcome unit * State W * list Event :=
  deleteVideo_body video (mkState w video).

End Services.

(* ------------------------------------------------------------------ *)
(** ** Replaying requests on the platform

    To say that a run really issued its requests, in order, and ended in
    the world the platform left: a script lists the requests, each with
    the number of clock readings made before it, and is replayed on the
    platform itself. *)

Section Replay.
Context {W : Type} {P : Platform W}.

(** What the platform answers to a request, and the world it leaves. *)
Definition perform (op : Op) (w : W) : option Error * W :=
  match op with
  | OpRename from to => fs_rename from to w
  | OpRm path => fs_rm path w
  | OpRmdir path => fs_rmdir path w
  | OpSave v => video_save v w
  | OpDestroy v => video_destroy v w
  end.

(** The world after [n] readings of the clock. *)
Fixpoint after_readings (n : nat) (w : W) : W :=
  match n with
  | O => w
  | S n' => after_readings n' (snd (date_now w))
  end.

Fixpoint replay (script : list (nat * Op)) (w : W) : list Event * W :=
  match script with
  | [] => ([], w)
  | (n, op) :: rest =>
      let '(r, w1) := perform op (after_readings n w) in
      let '(evs, w2) := replay rest w1 in
      (Did op r :: evs, w2)
  end.

End Replay.

(* ------------------------------------------------------------------ *)
(** ** [encodeVideo]: a promise settled by the engine's signals *)

Module Encode.
Import Js Model.

(** What the engine can emit while a command runs. *)
Inductive Signal :=
| SigError (err : Error)
| SigEnd
| SigProgress (percent : Q).

Inductive Promise :=
| Pending
| Fulfilled
| Failed (err : Error).

(** [resolve()] and [reject(err)] settle a promise once. *)
Definition resolve (p : Promise) : Promise :=
  match p with Pending => Fulfilled | _ => p end.

Definition reject (err : Error) (p : Promise) : Promise :=
  match p with Pending => Failed err | _ => p end.

(** The command handed to the engine. *)
Record Command := mkCommand {
  input : string;
  output : string;
  size : string
}.

Definition category (videoPath : string) (resolution : Resolution)
  : string :=
  "- " ++ number_to_string (height resolution) ++ "p encoding : " ++
  Paths.or_undefined (pop (split "/" videoPath)).

(** The three listeners. *)
Definition on_signal (cat : string) (s : Signal) (p : Promise)
  : Promise * list Event :=
  match s with
  | SigError err => (reject err p, [Log cat LvlError err])
  | SigEnd => (resolve p, [Log cat LvlInfo "Finished processing"])
  | SigProgress percent =>
      (p, [Log cat LvlTrace
             ("Processing: " ++ number_to_string (Qceiling percent) ++
              "% done")])
  end.

Fixpoint listen (cat : string) (signals : list Signal) (p : Promise)
  : Promise * list Event :=
  match signals with
  | [] => (p, [])
  | s :: rest =>
      let '(p1, evs1) := on_signal cat s p in
      let '(p2, evs2) := listen cat rest p1 in
      (p2, (evs1 ++ evs2)%list)
  end.

(** The promise when the executor has built the command.  The engine's
    [output(target)] throws [Error("Invalid output")] for an empty target;
    thrown inside the executor, it rejects the promise before any listener
    is attached and before [run()].  Every other output path is accepted
    and leaves the promise pending. *)
Definition after_build (outputPath : string) : Promise :=
  if truthy outputPath then Pending else Failed "Invalid output".

(** [encodeVideo]: the command it asks for, and the promise and log lines
    after the engine has emitted [signals].  An engine that was not
    started emits nothing: with an empty output path the signals of a run
    are [[]]. *)
Definition encodeVideo (videoPath outputPath : string)
    (resolution : Resolution) (signals : list Signal)
  : Command * Promise * list Event :=
  let cat := category videoPath resolution in
  let cmd := mkCommand videoPath outputPath
               ("?x" ++ number_to_string (height resolution)) in
  let '(p, evs) := listen cat signals (after_build outputPath) in
  (cmd, p, evs).

Definition is_progress (s : Signal) : bool :=
  match s with SigProgress _ => true | _ => false end.

Definition is_terminal (s : Signal) : bool := negb (is_progress s).

Definition command_of (r : Command * Promise * list Event) : Command :=
  fst (fst r).

Definition promise_of (r : Command * Promise * list Event) : Promise :=
  snd (fst r).

(** The promise a first terminal signal leaves. *)
Definition settled_by (first : option Signal) : Promise :=
  match first with
  | Some SigEnd => Fulfilled
  | Some (SigError err) => Failed err
  | Some (SigProgress _) | None => Pending
  end.

End Encode.

(* ------------------------------------------------------------------ *)
(** ** Reading a run *)

Module Trace.
Import Model.

(** A move that succeeded. *)
Definition moved (m : string * string) : Event :=
  Did (OpRename (fst m) (snd m)) None.

(** The moves of a run that succeeded, in order. *)
Fixpoint moves (evs : list Event) : list (string * string) :=
  match evs with
  | [] => []
  | Did (OpRename from to) None :: rest => (from, to) :: moves rest
  | _ :: rest => moves rest
  end.

(** The record updates of a run that succeeded, in order. *)
Fixpoint saves (evs : list Event) : list Video :=
  match evs with
  | [] => []
  | Did (OpSave v) None :: rest => v :: saves rest
  | _ :: rest => saves rest
  end.

(** The requests of a run, in order. *)
Fixpoint requests (evs : list Event) : list Op :=
  match evs with
  | [] => []
  | Did op _ :: rest => op :: requests rest
  | _ :: rest => requests rest
  end.

(** The lines a run handed to a logger, in order. *)
Fixpoint logged (evs : list Event) : list (Level * string) :=
  match evs with
  | [] => []
  | Log _ lvl msg :: rest => (lvl, msg) :: logged rest
  | _ :: rest => logged rest
  end.

(** No move of the run has failed. *)
Definition move_went_through (ev : Event) : bool :=
  match ev with
  | Did (OpRename _ _) (Some _) => false
  | _ => true
  end.

Definition no_move_failed (evs : list Event) : bool :=
  forallb move_went_through evs.

(** The guard [if (oldPath)] of the loop of [updateVideoName]: the entry
    of [r] holds a path. *)
Definition has_file (f : Format) (r : Resolution) : bool :=
  match format_get r f with
  | Some p => Js.truthy p
  | None => false
  end.

(** The resolutions whose entry holds a path, in the order of
    [Object.keys]. *)
Definition derived (f : Format) : list Resolution :=
  filter (has_file f) all_resolutions.

Definition format_path (r : Resolution) (f : Format) : string :=
  match format_get r f with Some p => p | None => "" end.

End Trace.

(* ------------------------------------------------------------------ *)
(** ** A small platform to run the services on

    A list of upcoming clock readings, the set of files, and a record store
    that is either reachable or not.  A move or a removal fails exactly when
    its target is missing; the store fails exactly when it is down. *)

Module Disk.
Import Model.

Record Disk := mkDisk {
  clock : list Z;
  files : list string;
  store_up : bool;
  rows : list Video
}.

Definition mem (p : string) (l : list string) : bool :=
  existsb (String.eqb p) l.

Definition without (p : string) (l : list string) : list string :=
  filter (fun q => negb (String.eqb p q)) l.

Definition tick (d : Disk) : Z * Disk :=
  match clock d with
  | [] => (0%Z, d)
  | t :: later => (t, mkDisk later (files d) (store_up d) (rows d))
  end.

Definition rename (from to : string) (d : Disk) : option Error * Disk :=
  if mem from (files d)
  then (None, mkDisk (clock d) (to :: without from (files d))
                     (store_up d) (rows d))
  else (Some ("ENOENT: " ++ from), d).

Definition rm (path : string) (d : Disk) : option Error * Disk :=
  if mem path (files d)
  then (None, mkDisk (clock d) (without path (files d))
                     (store_up d) (rows d))
  else (Some ("ENOENT: " ++ path), d).

Definition under (dir : string) (p : string) : bool :=
  String.prefix (dir ++ "/") p.

Definition rmdir (dir : string) (d : Disk) : option Error * Disk :=
  if existsb (under dir) (files d)
  then (None, mkDisk (clock d) (filter (fun p => negb (under dir p)) (files d))
                     (store_up d) (rows d))
  else (Some ("ENOENT: " ++ dir), d).

Definition other_row (v : Video) (r : Video) : bool :=
  negb (String.eqb (id v) (id r)).

Definition save (v : Video) (d : Disk) : option Error * Disk :=
  if store_up d
  then (None, mkDisk (clock d) (files d) true
                     (v :: filter (other_row v) (rows d)))
  else (Some "store unreachable", d).

Definition destroy (v : Video) (d : Disk) : option Error * Disk :=
  if store_up d
  then (None, mkDisk (clock d) (files d) true
                     (filter (other_row v) (rows d)))
  else (Some "store unreachable", d).

#[export] Instance platform : Platform Disk := {
  date_now := tick;
  fs_rename := rename;
  fs_rm := rm;
  fs_rmdir := rmdir;
  video_save := save;
  video_destroy := destroy
}.

(** The asset of the scenario: a primary file and two derived files. *)
Definition clip : Video :=
  mkVideo "7" "/data/42_clip.mp4"
    (mkFormat None None None
       (Some "/data/7/480p/50_clip.mp4")
       (Some "/data/7/720p/51_clip.mp4")
       None).

Definition clip_disk : Disk :=
  mkDisk [100; 101; 102; 103]%Z
         ["/data/42_clip.mp4"; "/data/7/480p/50_clip.mp4";
          "/data/7/720p/51_clip.mp4"]
         true [clip].

End Disk.

(* ------------------------------------------------------------------ *)
(** ** [getVideosByUserId]

    The same function in both revisions: the videos of one user, by
    page. *)

Module ByUser.
Import Number.

(** The argument handed to [Video.findAndCountAll]. *)
Record FindOptions := mkFindOptions {
  where_user : string;
  limit : number;
  offset : number
}.

Definition getVideosByUserId (userId : string) (page perPage : number)
  : FindOptions :=
  mkFindOptions userId perPage (mul perPage (sub page (Int 1))).

End ByUser.

(** What [limit] and [offset] ask of the store: the matching rows whose
    index, counted from 0, lies in [offset, offset + limit). *)
Definition in_window (limit offset i : Z) : bool :=
  ((offset <=? i) && (i <? offset + limit))%Z.

(* ------------------------------------------------------------------ *)
(** ** The layout of an asset on disk

    [generateEncodedVideoFolderPath] fixes where the derived file of a
    resolution goes, [generateEncodedVideoPath] names it there.  A video
    is laid out when its source is a file with an extension and every
    entry of its format map that holds a path names such a file in the
    folder of its resolution. *)

Module Layout.
Import Js Model Paths.

(** [p.split("/").pop()], the file of [p]. *)
Definition basename (p : string) : string :=
  or_undefined (pop (split "/" p)).

Definition in_folder (folder p : string) : bool :=
  String.eqb (dirname p ++ "/") folder && has_char "." (basename p).

Definition entry_ok (v : Video) (r : Resolution) : bool :=
  match format_get r (format v) with
  | Some p =>
      if truthy p
      then in_folder (generateEncodedVideoFolderPath v (height r)) p
      else true
  | None => true
  end.

Definition layout_ok (v : Video) : bool :=
  has_char "." (basename (source v)) && forallb (entry_ok v) all_resolutions.

End Layout.

(* ------------------------------------------------------------------ *)
(** ** [encodeVideo], first revision

    It differs from the second in one place: the progress line prints
    [progress.percent] as it is, a number that need not be integral.  Its
    rendering is left open.  The command is built in the same way, so an
    empty output path rejects the promise in the same way. *)

Module EncodeRev1.
Import Js Model Encode.

Section Rendering.
Variable number_text : Q -> string.

Definition on_signal (cat : string) (s : Signal) (p : Promise)
  : Promise * list Event :=
  match s with
  | SigError err => (reject err p, [Log cat LvlError err])
  | SigEnd => (resolve p, [Log cat LvlInfo "Finished processing"])
  | SigProgress percent =>
      (p, [Log cat LvlTrace
             ("Processing: " ++ number_text percent ++ "% done")])
  end.

Fixpoint listen (cat : string) (signals : list Signal) (p : Promise)
  : Promise * list Event :=
  match signals with
  | [] => (p, [])
  | s :: rest =>
      let '(p1, evs1) := on_signal cat s p in
      let '(p2, evs2) := listen cat rest p1 in
      (p2, (evs1 ++ evs2)%list)
  end.

Definition encodeVideo (videoPath outputPath : string)
    (resolution : Resolution) (signals : list Signal)
  : Command * Promise * list Event :=
  let cat := category videoPath resolution in
  let cmd := mkCommand videoPath outputPath
               ("?x" ++ number_to_string (height resolution)) in
  let '(p, evs) := listen cat signals (after_build outputPath) in
  (cmd, p, evs).

End Rendering.

(** The lines of a log that are not progress lines. *)
Definition not_trace (ev : Event) : bool :=
  match ev with
  | Log _ LvlTrace _ => false
  | _ => true
  end.

Definition level_of (ev : Event) : option Level :=
  match ev with
  | Log _ lvl _ => Some lvl
  | _ => None
  end.

(** The level at which the listener of a signal logs. *)
Definition signal_level (s : Signal) : Level :=
  match s with
  | SigError _ => LvlError
  | SigEnd => LvlInfo
  | SigProgress _ => LvlTrace
  end.

End EncodeRev1.

(* ------------------------------------------------------------------ *)
(** ** Facts about the primitives *)

Section JsFacts.
Import Js.

Lemma split_not_nil (c : ascii) (s : string) : split c s <> [].
Proof.
  induction s as [|a s IH]; simpl; [discriminate|].
  destruct (Ascii.eqb a c); [discriminate|].
  destruct (split c s); [contradiction|discriminate].
Qed.

Lemma split_no_sep (c : ascii) (s : string) :
  has_char c s = false -> split c s = [s].
Proof.
  induction s as [|a s IH]; simpl; [reflexivity|].
  intros H. apply orb_false_iff in H as [Hac Hs].
  rewrite Hac, (IH Hs). reflexivity.
Qed.

(** Splitting around one occurrence of the separator. *)
Lemma split_app_sep (c : ascii) (a b : string) :
  split c (a ++ String c b) = (split c a ++ split c b)%list.
Proof.
  induction a as [|x a IH]; simpl.
  - now rewrite Ascii.eqb_refl.
  - destruct (Ascii.eqb x c); [now rewrite IH|].
    rewrite IH.
    destruct (split c a) as [|seg segs] eqn:E; [|reflexivity].
    now apply split_not_nil in E.
Qed.

Lemma split_segments_clean (c : ascii) (s : string) :
  Forall (fun seg => has_char c seg = false) (split c s).
Proof.
  induction s as [|a s IH]; simpl.
  - constructor; [reflexivity|constructor].
  - destruct (Ascii.eqb a c) eqn:Hac.
    + constructor; [reflexivity|exact IH].
    + destruct (split c s) as [|seg segs]; simpl.
      * constructor; [simpl; now rewrite Hac|constructor].
      * inversion IH; subst. constructor; [|assumption].
        simpl. now rewrite Hac.
Qed.

Lemma join_cons (sep x : string) (y : string) (l : list string) :
  join sep (x :: y :: l) = x ++ sep ++ join sep (y :: l).
Proof. reflexivity. Qed.

Lemma string_app_assoc (a b c : string) : (a ++ b) ++ c = a ++ b ++ c.
Proof. induction a; simpl; congruence. Qed.

(** [join] undoes [split]. *)
Lemma join_split (c : ascii) (s : string) :
  join (String c EmptyString) (split c s) = s.
Proof.
  induction s as [|a s IH]; simpl; [reflexivity|].
  destruct (Ascii.eqb a c) eqn:Hac.
  - apply Ascii.eqb_eq in Hac; subst a.
    destruct (split c s) as [|seg segs] eqn:E.
    + now apply split_not_nil in E.
    + rewrite join_cons, IH. reflexivity.
  - destruct (split c s) as [|seg segs] eqn:E.
    + now apply split_not_nil in E.
    + destruct segs as [|seg' segs].
      * simpl in *. now subst.
      * rewrite <- IH. reflexivity.
Qed.

Lemma pop_app {A : Type} (l l' : list A) :
  l' <> [] -> pop (l ++ l')%list = pop l'.
Proof.
  intros Hne. induction l as [|x l IH]; [reflexivity|].
  simpl. destruct (l ++ l')%list eqn:E; [|exact IH].
  apply app_eq_nil in E as [_ E]. contradiction.
Qed.

Lemma pop_split_some (c : ascii) (s : string) :
  exists seg, pop (split c s) = Some seg /\ has_char c seg = false.
Proof.
  pose proof (split_segments_clean c s) as Hall.
  pose proof (split_not_nil c s) as Hne.
  induction (split c s) as [|x l IH]; [contradiction|].
  inversion Hall; subst.
  destruct l as [|y l]; [now exists x|].
  apply IH; [assumption|discriminate].
Qed.

(** The last segment only depends on what follows the last separator. *)
Lemma pop_split_app_sep (c : ascii) (a b : string) :
  pop (split c (a ++ String c b)) = pop (split c b).
Proof. rewrite split_app_sep. apply pop_app, split_not_nil. Qed.

Lemma pop_split_no_sep (c : ascii) (s : string) :
  has_char c s = false -> pop (split c s) = Some s.
Proof. intros H. now rewrite split_no_sep. Qed.

(** The three shapes of [slice] the services use. *)
Lemma slice_drop_last {A : Type} (l : list A) :
  slice 0 (Some (-1)%Z) l = removelast l.
Proof.
  unfold slice, rel_index. simpl.
  replace (Z.to_nat (Z.min 0 (Z.of_nat (length l)))) with 0%nat by lia.
  simpl.
  replace (Z.to_nat (Z.max (Z.of_nat (length l) + -1) 0 -
                     Z.min 0 (Z.of_nat (length l))))
    with (length l - 1)%nat by lia.
  induction l as [|x l IH]; [reflexivity|].
  destruct l as [|y l]; [reflexivity|].
  simpl in *. f_equal. rewrite Nat.sub_0_r in IH. exact IH.
Qed.

Lemma slice_from_one {A : Type} (l : list A) :
  slice 1 None l = tl l.
Proof.
  unfold slice, rel_index. simpl.
  destruct l as [|x l]; [reflexivity|].
  replace (Z.to_nat (Z.min 1 (Z.of_nat (length (x :: l))))) with 1%nat
    by (simpl length; lia).
  replace (Z.to_nat (Z.of_nat (length (x :: l)) -
                     Z.min 1 (Z.of_nat (length (x :: l)))))
    with (length l) by (simpl length; lia).
  simpl. apply firstn_all.
Qed.

Lemma slice_last (l : list string) :
  slice (-1) None l = match pop l with Some x => [x] | None => [] end.
Proof.
  unfold slice, rel_index. simpl.
  induction l as [|x l IH]; [reflexivity|].
  destruct l as [|y l]; [reflexivity|].
  replace (Z.to_nat (Z.max (Z.of_nat (length (x :: y :: l)) + -1) 0))
    with (S (length l)) by (simpl length; lia).
  replace (Z.to_nat (Z.of_nat (length (x :: y :: l)) -
                     Z.max (Z.of_nat (length (x :: y :: l)) + -1) 0))
    with 1%nat by (simpl length; lia).
  replace (Z.to_nat (Z.max (Z.of_nat (length (y :: l)) + -1) 0))
    with (length l) in IH by (simpl length; lia).
  replace (Z.to_nat (Z.of_nat (length (y :: l)) -
                     Z.max (Z.of_nat (length (y :: l)) + -1) 0))
    with 1%nat in IH by (simpl length; lia).
  change (skipn (S (length l)) (x :: y :: l))
    with (skipn (length l) (y :: l)).
  rewrite IH. reflexivity.
Qed.

Lemma has_char_app (c : ascii) (a b : string) :
  has_char c (a ++ b) = has_char c a || has_char c b.
Proof.
  induction a as [|x a IH]; simpl; [reflexivity|].
  now rewrite IH, orb_assoc.
Qed.

End JsFacts.

(** *** Rendering of numbers *)

Section NumberFacts.
Import Js.

Lemma digit_or_minus_inv (c : ascii) :
  digit_or_minus c = false ->
  Ascii.eqb "-" c = false /\
  Forall (fun d => Ascii.eqb d c = false)
         ["0"; "1"; "2"; "3"; "4"; "5"; "6"; "7"; "8"; "9"]%char.
Proof.
  unfold digit_or_minus. cbn [has_char]. intros H.
  repeat (apply orb_false_iff in H as [? H]).
  split; [assumption|]. repeat (constructor; [assumption|]). constructor.
Qed.

Lemma uint_chars (c : ascii) (d : Decimal.uint) :
  digit_or_minus c = false ->
  has_char c (NilEmpty.string_of_uint d) = false.
Proof.
  intros H. apply digit_or_minus_inv in H as [_ H].
  repeat match goal with
         | F : Forall _ (_ :: _) |- _ => inversion F; subst; clear F
         end.
  induction d; cbn [NilEmpty.string_of_uint has_char]; trivial;
    match goal with
    | E : Ascii.eqb ?x c = false |- Ascii.eqb ?x c || _ = false =>
        rewrite E; exact IHd
    end.
Qed.

(** A rendered number holds digits and possibly a sign, nothing else. *)
Lemma number_to_string_chars (c : ascii) (n : Z) :
  digit_or_minus c = false -> has_char c (number_to_string n) = false.
Proof.
  intros H. pose proof (uint_chars c) as Hu.
  destruct (digit_or_minus_inv c H) as [Hm Hd].
  assert (Hz : has_char c "0" = false).
  { inversion Hd; subst. cbn [has_char]. now rewrite H2. }
  unfold number_to_string, NilZero.string_of_int, NilZero.string_of_uint.
  destruct (Z.to_int n) as [d|d].
  - destruct d; auto.
  - cbn [has_char]. rewrite Hm. cbn [orb]. destruct d; auto.
Qed.

Lemma number_to_string_inj (n m : Z) :
  number_to_string n = number_to_string m -> n = m.
Proof.
  unfold number_to_string. intros H.
  apply DecimalZ.to_int_inj.
  assert (Hnn : forall z, Z.to_int z <> Decimal.Pos Decimal.Nil /\
                          Z.to_int z <> Decimal.Neg Decimal.Nil).
  { intros [|p|p]; simpl; split; try discriminate;
      intros [= E]; now apply DecimalPos.Unsigned.to_uint_nonnil in E. }
  destruct (Hnn n) as [Hn1 Hn2], (Hnn m) as [Hm1 Hm2].
  pose proof (NilZero.isi _ Hn1 Hn2) as En.
  pose proof (NilZero.isi _ Hm1 Hm2) as Em.
  rewrite H in En. congruence.
Qed.

End NumberFacts.

(* ------------------------------------------------------------------ *)
(** ** The path builders *)

Section PathFacts.
Import Js Model Paths.

Lemma string_app_inv_head (a x y : string) : a ++ x = a ++ y -> x = y.
Proof. induction a as [|c a IH]; simpl; [auto|]. intros [= E]. auto. Qed.

Lemma prefix_app (a b : string) : String.prefix a (a ++ b) = true.
Proof.
  induction a as [|c a IH]; simpl; [now destruct b|].
  destruct (ascii_dec c c); [exact IH|contradiction].
Qed.

Lemma last_char_app (a b : string) :
  b <> "" -> last_char (a ++ b) = last_char b.
Proof.
  intros Hb. induction a as [|c a IH]; [reflexivity|].
  simpl. destruct (a ++ b) eqn:E; [|exact IH].
  destruct a; simpl in E; [contradiction|discriminate].
Qed.

Lemma last_char_has (c : ascii) (s : string) :
  last_char s = Some c -> has_char c s = true.
Proof.
  induction s as [|a s IH]; simpl; [discriminate|].
  destruct s as [|b s].
  - intros [= ->]. now rewrite Ascii.eqb_refl.
  - intros H. rewrite (IH H). apply orb_true_r.
Qed.

(** A segment holds no character its string does not hold. *)
Lemma split_segments_sub (c c' : ascii) (s : string) :
  has_char c' s = false ->
  Forall (fun seg => has_char c' seg = false) (split c s).
Proof.
  induction s as [|a s IH]; simpl; intros H.
  - constructor; [reflexivity|constructor].
  - apply orb_false_iff in H as [Ha Hs]. specialize (IH Hs).
    destruct (Ascii.eqb a c).
    + constructor; [reflexivity|exact IH].
    + destruct (split c s) as [|seg segs].
      * constructor; [simpl; now rewrite Ha|constructor].
      * inversion IH; subst. constructor; [|assumption].
        simpl. now rewrite Ha.
Qed.

Lemma pop_Forall {A : Type} (Q : A -> Prop) (l : list A) (x : A) :
  Forall Q l -> pop l = Some x -> Q x.
Proof.
  induction l as [|y l IH]; simpl; [discriminate|].
  intros HF. inversion HF; subst.
  destruct l; [now intros [= <-]|auto].
Qed.

Lemma extension_some (p : string) :
  extension p = Some (or_undefined (extension p)).
Proof.
  unfold extension. destruct (pop_split_some "." p) as (seg & E & _).
  now rewrite E.
Qed.

Lemma extension_clean (c : ascii) (p : string) :
  has_char c p = false -> has_char c (or_undefined (extension p)) = false.
Proof.
  intros H. unfold extension.
  destruct (pop_split_some "." p) as (seg & E & _). rewrite E. simpl.
  exact (pop_Forall _ _ _ (split_segments_sub "." c p H) E).
Qed.

Lemma extension_no_dot (p : string) :
  has_char "." (or_undefined (extension p)) = false.
Proof.
  unfold extension. destruct (pop_split_some "." p) as (seg & E & Hc).
  now rewrite E.
Qed.

(** The extension of [x.e] is [e] when [e] holds no dot. *)
Lemma extension_app (x e : string) :
  has_char "." e = false -> extension (x ++ "." ++ e) = Some e.
Proof.
  intros H. unfold extension.
  change (x ++ "." ++ e) with (x ++ String "." e).
  rewrite pop_split_app_sep. now apply pop_split_no_sep.
Qed.

(** The directory of [d/file] is [d] when [file] holds no slash. *)
Lemma dirname_app (d file : string) :
  has_char "/" file = false -> dirname (d ++ "/" ++ file) = d.
Proof.
  intros H. unfold dirname. rewrite slice_drop_last.
  change (d ++ "/" ++ file) with (d ++ String "/" file).
  rewrite split_app_sep, (split_no_sep _ _ H), removelast_last.
  apply join_split.
Qed.

Lemma last_segment_slice (c : ascii) (s : string) :
  array_to_string (slice (-1) None (split c s)) =
  or_undefined (pop (split c s)).
Proof.
  rewrite slice_last. destruct (pop_split_some c s) as (seg & E & _).
  now rewrite E.
Qed.

(** Concatenation with a rendered number in front of an underscore:
    the first underscore is the one after the number. *)
Lemma split_timestamp (now : Z) (rest : string) :
  split "_" (number_to_string now ++ "_" ++ rest) =
  number_to_string now :: split "_" rest.
Proof.
  change (number_to_string now ++ "_" ++ rest)
    with (number_to_string now ++ String "_" rest).
  rewrite split_app_sep, split_no_sep; [reflexivity|].
  now apply number_to_string_chars.
Qed.

Lemma updateVideoPath_unfold (now : Z) (oldPath newName : string) :
  updateVideoPath now oldPath newName =
  dirname oldPath ++ "/" ++ number_to_string now ++ "_" ++
  or_undefined (pop (split "." newName)) ++ "." ++
  or_undefined (extension oldPath).
Proof. unfold updateVideoPath. now rewrite last_segment_slice. Qed.

Lemma updateVideoPath_extension (now : Z) (oldPath newName : string) :
  extension (updateVideoPath now oldPath newName) = extension oldPath.
Proof.
  rewrite updateVideoPath_unfold, (extension_some oldPath).
  set (ext := or_undefined (extension oldPath)).
  rewrite <- !string_app_assoc.
  rewrite (string_app_assoc _ "." ext).
  apply extension_app, extension_no_dot.
Qed.

Lemma updateVideoPath_dirname (now : Z) (oldPath newName : string) :
  has_char "/" (or_undefined (pop (split "." newName))) = false ->
  has_char "/" (or_undefined (extension oldPath)) = false ->
  dirname (updateVideoPath now oldPath newName) = dirname oldPath.
Proof.
  intros Hseg Hext. rewrite updateVideoPath_unfold. apply dirname_app.
  rewrite !has_char_app, Hseg, Hext.
  rewrite number_to_string_chars by reflexivity. reflexivity.
Qed.

Lemma updateVideoPath_plain_name (now : Z) (oldPath newName : string) :
  has_char "." newName = false -> has_char "/" newName = false ->
  updateVideoPath now oldPath newName =
  generateRenamedPath_spec now oldPath newName.
Proof.
  intros Hdot Hslash. rewrite updateVideoPath_unfold.
  unfold generateRenamedPath_spec.
  now rewrite !pop_split_no_sep.
Qed.

End PathFacts.

Section EffectFacts.
Context {W : Type} {P : Platform W}.
Import Model Paths.

(** [updateVideoPathM] reads the clock once and does nothing else. *)
Lemma updateVideoPathM_run (oldPath newName : string) (st : State W) :
  updateVideoPathM oldPath newName st =
  (Resolved (updateVideoPath (fst (date_now (world st))) oldPath newName),
   mkState (snd (date_now (world st))) (obj st), []).
Proof.
  unfold updateVideoPathM, bind, dateNow, ret.
  destruct (date_now (world st)) as [t w]. reflexivity.
Qed.

End EffectFacts.

(* ------------------------------------------------------------------ *)
(** ** Properties of the path builders *)

Section PathProperties.
Import Js Model Paths.

(** C1, as the specification words it, fails: with the new name
    ["holiday.v2"] the code keeps only ["v2"], the part after the last
    dot, where the last path segment is the whole name; with ["a/b"] the
    result lies in another directory than the old path, and so it does
    when the last dot of the old path is in its directory. *)
Lemma updateVideoPath_not_last_path_segment :
  updateVideoPath 7 "/data/42_clip.mp4" "holiday.v2" = "/data/7_v2.mp4" /\
  generateRenamedPath_spec 7 "/data/42_clip.mp4" "holiday.v2"
    = "/data/7_holiday.v2.mp4" /\
  updateVideoPath 7 "/data/42_clip.mp4" "holiday.v2"
    <> generateRenamedPath_spec 7 "/data/42_clip.mp4" "holiday.v2" /\
  dirname (updateVideoPath 7 "/data/42_clip.mp4" "a/b")
    <> dirname "/data/42_clip.mp4" /\
  dirname (updateVideoPath 7 "/data.d/clip" "holiday")
    <> dirname "/data.d/clip".
Proof. repeat split; try reflexivity; vm_compute; discriminate. Qed.

(** C1 (amended): [updateVideoPath] returns
    [<dir>/<timestamp>_<segment>.<ext>] where [dir] is the directory of
    the old path, [segment] the part of the new name after its last dot
    (all of it when it has no dot) and [ext] the extension of the old
    path.  The extension of the result is that of the old path; its
    directory is that of the old path when neither [segment] nor [ext]
    holds a slash; for a new name without dot and slash it is the path
    the specification words.  The transform reads the clock and nothing
    else: no request is issued, the video object is left alone. *)
Theorem updateVideoPath_shape (now : Z) (oldPath newName : string) :
  let segment := or_undefined (pop (split "." newName)) in
  let ext := or_undefined (extension oldPath) in
  let result := updateVideoPath now oldPath newName in
  result = dirname oldPath ++ "/" ++ number_to_string now ++ "_" ++
           segment ++ "." ++ ext /\
  extension result = extension oldPath /\
  (has_char "/" segment = false -> has_char "/" ext = false ->
   dirname result = dirname oldPath) /\
  (has_char "." newName = false -> has_char "/" newName = false ->
   result = generateRenamedPath_spec now oldPath newName) /\
  (forall (W : Type) (P : Platform W) (st : State W),
      exists t w,
        date_now (world st) = (t, w) /\
        updateVideoPathM oldPath newName st =
        (Resolved (updateVideoPath t oldPath newName),
         mkState w (obj st), [])).
Proof.
  cbv zeta. split; [apply updateVideoPath_unfold|].
  split; [apply updateVideoPath_extension|].
  split; [apply updateVideoPath_dirname|].
  split; [apply updateVideoPath_plain_name|].
  intros W P st. rewrite updateVideoPathM_run.
  destruct (date_now (world st)) as [t w]. now exists t, w.
Qed.

Lemma updateVideoPath_shape_witness :
  dirname (updateVideoPath 7 "/data/42_clip.mp4" "holiday") = "/data" /\
  updateVideoPath 7 "/data/42_clip.mp4" "holiday"
    = generateRenamedPath_spec 7 "/data/42_clip.mp4" "holiday".
Proof.
  destruct (updateVideoPath_shape 7 "/data/42_clip.mp4" "holiday")
    as (_ & _ & Hdir & Hspec & _).
  split.
  - rewrite Hdir; reflexivity.
  - apply Hspec; reflexivity.
Defined.

(** C5, as stated, fails: the upload ["upload"] has no dot, the extracted
    extension is ["upload"], not the empty string, and the path does not
    end in a dot. *)
Lemma generateVideoPath_no_dot_not_empty :
  has_char "." "upload" = false /\
  extension "upload" = Some "upload" /\
  extension "upload" <> Some "" /\
  generateVideoPath 7 "/data" (mkRequest "movie" (Some (mkFile "upload")))
    = Some "/data/7_movie.upload" /\
  last_char "/data/7_movie.upload" <> Some "."%char.
Proof. repeat split; try reflexivity; vm_compute; discriminate. Qed.

(** C5 (amended): when the uploaded file name holds no dot, the extracted
    extension is the whole file name, and the path is
    [<folder>/<timestamp>_<declared name>.<file name>]; it ends in a dot
    only for an empty file name. *)
Theorem generateVideoPath_without_dot (now : Z) (folder : string)
    (req : Request) (file : UploadedFile) :
  files_source req = Some file ->
  has_char "." (name file) = false ->
  extension (name file) = Some (name file) /\
  generateVideoPath now folder req =
    Some (folder ++ "/" ++ number_to_string now ++ "_" ++ body_name req ++
          "." ++ name file) /\
  (forall p, generateVideoPath now folder req = Some p ->
             (last_char p = Some "."%char <-> name file = "")).
Proof.
  intros Hfile Hdot.
  assert (Hext : extension (name file) = Some (name file))
    by now apply pop_split_no_sep.
  assert (Hpath : generateVideoPath now folder req =
                  Some (folder ++ "/" ++ number_to_string now ++ "_" ++
                        body_name req ++ "." ++ name file)).
  { unfold generateVideoPath. rewrite Hfile.
    unfold extension in Hext. now rewrite Hext. }
  split; [exact Hext|]. split; [exact Hpath|].
  intros p Hp. rewrite Hpath in Hp.
  assert (Ep : p = folder ++ "/" ++ number_to_string now ++ "_" ++
                   body_name req ++ "." ++ name file) by congruence.
  rewrite Ep. clear Ep Hp Hpath.
  rewrite <- !string_app_assoc, (string_app_assoc _ "." (name file)).
  rewrite last_char_app by discriminate.
  destruct (name file) as [|c s] eqn:E; [now split|].
  split; [|discriminate].
  intros Hlast.
  change (last_char ("." ++ String c s))
    with (last_char (String c s)) in Hlast.
  apply last_char_has in Hlast. congruence.
Qed.

Lemma generateVideoPath_without_dot_witness :
  generateVideoPath 7 "/data" (mkRequest "movie" (Some (mkFile "upload")))
    = Some "/data/7_movie.upload".
Proof.
  apply (generateVideoPath_without_dot 7 "/data"
           (mkRequest "movie" (Some (mkFile "upload"))) (mkFile "upload"));
    reflexivity.
Defined.

(** C6: for a request carrying an uploaded file, [generateVideoPath]
    returns [<folder>/<timestamp>_<declared name>.<ext>], a path under
    [folder], where [ext] is the extension of the uploaded file's own
    name; the extension of the returned path is that extension, whatever
    the declared name is. *)
Theorem generateVideoPath_extension (now : Z) (folder : string)
    (req : Request) (file : UploadedFile) :
  files_source req = Some file ->
  exists p,
    generateVideoPath now folder req = Some p /\
    p = folder ++ "/" ++ number_to_string now ++ "_" ++ body_name req ++
        "." ++ or_undefined (extension (name file)) /\
    starts_with (folder ++ "/") p = true /\
    extension p = extension (name file).
Proof.
  intros Hfile. eexists. split; [|split; [reflexivity|split]].
  - unfold generateVideoPath. now rewrite Hfile.
  - rewrite <- (string_app_assoc folder "/"). apply prefix_app.
  - rewrite (extension_some (name file)).
    set (ext := or_undefined (extension (name file))).
    rewrite <- !string_app_assoc, (string_app_assoc _ "." ext).
    apply extension_app, extension_no_dot.
Qed.

Lemma generateVideoPath_extension_witness :
  exists p,
    generateVideoPath 7 "/data"
      (mkRequest "movie.avi" (Some (mkFile "upload.mp4"))) = Some p /\
    extension p = Some "mp4" /\ extension "movie.avi" = Some "avi".
Proof.
  destruct (generateVideoPath_extension 7 "/data"
              (mkRequest "movie.avi" (Some (mkFile "upload.mp4")))
              (mkFile "upload.mp4") eq_refl)
    as (p & Hp & _ & _ & Hext).
  exists p. repeat split; assumption || reflexivity.
Defined.

(** C7: [generateEncodedVideoFolderPath] returns
    [<sourceDir>/<id>/<resolution>p/], where [sourceDir] is the source
    without its last segment (for a source [d/file] it is [d]); distinct
    resolutions give distinct folders, and every folder lies under
    [<sourceDir>/<id>/]. *)
Theorem generateEncodedVideoFolderPath_distinct (video : Video)
    (r1 r2 : Z) :
  let sourceDir := join "/" (removelast (split "/" (source video))) in
  generateEncodedVideoFolderPath video r1 =
    sourceDir ++ "/" ++ id video ++ "/" ++ number_to_string r1 ++ "p/" /\
  (forall d file, source video = d ++ "/" ++ file ->
                  has_char "/" file = false -> sourceDir = d) /\
  (r1 <> r2 -> generateEncodedVideoFolderPath video r1 <>
               generateEncodedVideoFolderPath video r2) /\
  starts_with (sourceDir ++ "/" ++ id video ++ "/")
              (generateEncodedVideoFolderPath video r1) = true /\
  starts_with (sourceDir ++ "/" ++ id video ++ "/")
              (generateEncodedVideoFolderPath video r2) = true.
Proof.
  cbv zeta. unfold generateEncodedVideoFolderPath.
  assert (Hdir : dirname (source video) =
                 join "/" (removelast (split "/" (source video))))
    by (unfold dirname; now rewrite slice_drop_last).
  rewrite Hdir.
  set (dir := join "/" (removelast (split "/" (source video)))).
  assert (Hunder : forall r,
             starts_with (dir ++ "/" ++ id video ++ "/")
               (dir ++ "/" ++ id video ++ "/" ++ number_to_string r ++ "p/")
             = true).
  { intros r. unfold starts_with.
    replace (dir ++ "/" ++ id video ++ "/" ++ number_to_string r ++ "p/")
      with ((dir ++ "/" ++ id video ++ "/") ++ number_to_string r ++ "p/")
      by now rewrite !string_app_assoc.
    apply prefix_app. }
  repeat split; auto.
  - intros d file Hsrc Hfile. subst dir. rewrite <- Hdir, Hsrc.
    now apply dirname_app.
  - intros Hne Heq. apply Hne.
    do 4 apply string_app_inv_head in Heq.
    apply (f_equal (split "p")) in Heq.
    change (number_to_string r1 ++ "p/")
      with (number_to_string r1 ++ String "p" "/") in Heq.
    change (number_to_string r2 ++ "p/")
      with (number_to_string r2 ++ String "p" "/") in Heq.
    rewrite !split_app_sep in Heq.
    rewrite !(split_no_sep "p" (number_to_string _)) in Heq
      by (now apply number_to_string_chars).
    injection Heq as Heq. now apply number_to_string_inj.
Qed.

Lemma generateEncodedVideoFolderPath_distinct_witness :
  generateEncodedVideoFolderPath Disk.clip 720 <>
  generateEncodedVideoFolderPath Disk.clip 480 /\
  join "/" (removelast (split "/" (source Disk.clip))) = "/data".
Proof.
  destruct (generateEncodedVideoFolderPath_distinct Disk.clip 720 480)
    as (_ & Hdir & Hne & _).
  split.
  - apply Hne. discriminate.
  - apply (Hdir "/data" "42_clip.mp4"); reflexivity.
Defined.

(** C10, as stated, fails: a declared name with a slash is cut at the
    slash, and what is left holds no underscore; the same happens with a
    slash in the extension of the uploaded file name. *)
Lemma getVideoName_slash_in_name :
  (exists p,
      generateVideoPath 7 "/data"
        (mkRequest "a/b" (Some (mkFile "upload.mp4"))) = Some p /\
      getVideoName (mkVideo "1" p empty_format) = Some "" /\
      getVideoName (mkVideo "1" p empty_format) <> Some "a/b.mp4") /\
  (exists p,
      generateVideoPath 7 "/data"
        (mkRequest "clip" (Some (mkFile "upload.m/p4"))) = Some p /\
      getVideoName (mkVideo "1" p empty_format) = Some "" /\
      getVideoName (mkVideo "1" p empty_format) <> Some "clip.m/p4").
Proof.
  split; eexists; (split; [reflexivity|]); (split; [reflexivity|]);
    vm_compute; discriminate.
Qed.

(** C10 (amended): when neither the declared name [n] nor the extension
    [ext] of the uploaded file name holds a slash, a video whose source was
    produced by [generateVideoPath] has [getVideoName] equal to [n.ext];
    underscores in [n] are kept. *)
Theorem getVideoName_generateVideoPath (now : Z) (folder : string)
    (req : Request) (file : UploadedFile) (p : string)
    (i : string) (fmt : Format) :
  files_source req = Some file ->
  has_char "/" (body_name req) = false ->
  has_char "/" (or_undefined (extension (name file))) = false ->
  generateVideoPath now folder req = Some p ->
  getVideoName (mkVideo i p fmt) =
    Some (body_name req ++ "." ++ or_undefined (extension (name file))).
Proof.
  intros Hfile Hn Hext Hp. unfold generateVideoPath in Hp.
  rewrite Hfile in Hp. fold (extension (name file)) in Hp.
  set (ext := or_undefined (extension (name file))) in *.
  assert (Ep : p = folder ++ "/" ++ number_to_string now ++ "_" ++
                   body_name req ++ "." ++ ext) by congruence.
  rewrite Ep. clear Ep Hp.
  unfold getVideoName. cbn [source].
  set (rest := number_to_string now ++ "_" ++ body_name req ++ "." ++ ext).
  assert (Hrest : has_char "/" rest = false).
  { unfold rest. rewrite !has_char_app, Hn, Hext.
    now rewrite number_to_string_chars. }
  change (folder ++ "/" ++ rest) with (folder ++ String "/" rest).
  rewrite pop_split_app_sep, (pop_split_no_sep _ _ Hrest).
  unfold rest. rewrite split_timestamp, slice_from_one. cbn [tl].
  now rewrite join_split.
Qed.

Lemma getVideoName_generateVideoPath_witness :
  getVideoName (mkVideo "1" "/data/7_my_home_movie.mp4" empty_format) =
    Some "my_home_movie.mp4".
Proof.
  apply (getVideoName_generateVideoPath 7 "/data"
           (mkRequest "my_home_movie" (Some (mkFile "upload.mp4")))
           (mkFile "upload.mp4") "/data/7_my_home_movie.mp4" "1"
           empty_format); reflexivity.
Defined.

End PathProperties.

(* ------------------------------------------------------------------ *)
(** ** [getVideos] *)

Section QueryProperties.
Import Number Query.

Lemma to_double_safe (z : Z) :
  (Z.abs z <= max_safe_integer)%Z -> to_double z = Int z.
Proof.
  intros H. unfold to_double, max_safe_integer in *. cbv zeta.
  destruct (Z.abs z <? 2 ^ 53)%Z eqn:E; [reflexivity|].
  apply Z.ltb_ge in E. lia.
Qed.

(** Within the safe integers the double arithmetic of the offset is the
    arithmetic of the integers. *)
Lemma offset_safe (n p : Z) :
  (Z.abs (p - 1) <= max_safe_integer)%Z ->
  (Z.abs (n * (p - 1)) <= max_safe_integer)%Z ->
  mul (Int n) (sub (Int p) (Int 1)) = Int (n * (p - 1)).
Proof.
  intros Hp Hn. cbn [sub]. rewrite (to_double_safe _ Hp). cbn [mul].
  now apply to_double_safe.
Qed.

(** C4, as stated, fails: for page 3 of 10 per page the first revision
    skips 20 records and the second 10; for [perPage = 0] the first
    revision asks for no record and the second for 5.  And the offset is
    a product of doubles: for page 4 of 4503599627370497 per page it is
    13510798882111492, one more than three times the page size. *)
Lemma getVideos_revisions_differ :
  offset (Rev1.getVideos (mkFields "clip" (Int 0) (Int 0) (Int 3) (Int 10)))
    = Int 20 /\
  offset (Rev2.getVideos (mkFields "clip" (Int 0) (Int 0) (Int 3) (Int 10)))
    = Int 10 /\
  Rev1.getVideos (mkFields "clip" (Int 0) (Int 0) (Int 3) (Int 10))
    <> Rev2.getVideos (mkFields "clip" (Int 0) (Int 0) (Int 3) (Int 10)) /\
  limit (Rev1.getVideos (mkFields "clip" (Int 0) (Int 0) (Int 1) (Int 0)))
    = Int 0 /\
  limit (Rev2.getVideos (mkFields "clip" (Int 0) (Int 0) (Int 1) (Int 0)))
    = Int 5 /\
  offset (Rev1.getVideos
            (mkFields "clip" (Int 0) (Int 0) (Int 4)
                      (Int 4503599627370497)))
    = Int 13510798882111492 /\
  (4503599627370497 * (4 - 1) = 13510798882111491)%Z.
Proof.
  repeat split; try (vm_compute; reflexivity). vm_compute. discriminate.
Qed.

(** C4 (amended): both revisions build the same filter: a pattern
    [%name%] on the source for a non-empty name, the user for a truthy
    user, a lower bound for a truthy duration.  The first revision issues
    [limit = perPage] and [offset = perPage * (page - 1)], a product of
    doubles; for integers with [page - 1] and [perPage * (page - 1)]
    within the safe integers it is the exact product, so that page [p]
    skips [(p - 1) * perPage] rows.  The second revision issues
    [limit = perPage] too when [perPage] is truthy, and 5 otherwise. *)
Theorem getVideos_filter_and_limit (fields : Fields) :
  where_and (Rev1.getVideos fields) = where_and (Rev2.getVideos fields) /\
  where_and (Rev1.getVideos fields) =
    mkFilter
      (if Js.truthy (name fields)
       then Some ("%" ++ name fields ++ "%") else None)
      (if truthy (user fields) then Some (user fields) else None)
      (if truthy (duration fields) then Some (duration fields) else None) /\
  limit (Rev1.getVideos fields) = perPage fields /\
  offset (Rev1.getVideos fields)
    = mul (perPage fields) (sub (page fields) (Int 1)) /\
  (forall n p,
      perPage fields = Int n -> page fields = Int p ->
      (Z.abs (p - 1) <= max_safe_integer)%Z ->
      (Z.abs (n * (p - 1)) <= max_safe_integer)%Z ->
      offset (Rev1.getVideos fields) = Int (n * (p - 1))) /\
  (truthy (perPage fields) = true ->
   limit (Rev2.getVideos fields) = perPage fields) /\
  (truthy (perPage fields) = false ->
   limit (Rev2.getVideos fields) = Int 5).
Proof.
  split; [reflexivity|]. split.
  - unfold Rev1.getVideos, build_filter. cbn [where_and].
    destruct (Js.truthy (name fields)), (truthy (user fields)),
      (truthy (duration fields)); reflexivity.
  - split; [reflexivity|]. split; [reflexivity|]. split.
    + intros n p Hn Hp Hb1 Hb2. unfold Rev1.getVideos. cbn [offset].
      rewrite Hn, Hp. now apply offset_safe.
    + unfold Rev2.getVideos, or_else. cbn [limit].
      split; intros H; now rewrite H.
Qed.

Lemma getVideos_filter_and_limit_witness :
  limit (Rev2.getVideos (mkFields "clip" (Int 4) (Int 0) (Int 3) (Int 10)))
    = Int 10 /\
  limit (Rev2.getVideos (mkFields "clip" (Int 4) (Int 0) (Int 3) (Int 0)))
    = Int 5 /\
  offset (Rev1.getVideos (mkFields "clip" (Int 4) (Int 0) (Int 3) (Int 10)))
    = Int 20.
Proof.
  split; [|split].
  - apply (getVideos_filter_and_limit
             (mkFields "clip" (Int 4) (Int 0) (Int 3) (Int 10))).
    reflexivity.
  - apply (getVideos_filter_and_limit
             (mkFields "clip" (Int 4) (Int 0) (Int 3) (Int 0))).
    reflexivity.
  - apply (proj1 (proj2 (proj2 (proj2 (proj2
             (getVideos_filter_and_limit
                (mkFields "clip" (Int 4) (Int 0) (Int 3) (Int 10)))))))
             10%Z 3%Z); try reflexivity; vm_compute; discriminate.
Defined.

End QueryProperties.

(* ------------------------------------------------------------------ *)
(** ** [encodeVideo] *)

Section EncodeProperties.
Import Js Model Encode.

Lemma listen_settled (cat : string) (signals : list Signal) (p : Promise) :
  p <> Pending -> fst (listen cat signals p) = p.
Proof.
  revert p. induction signals as [|s rest IH]; intros p Hp; [reflexivity|].
  cbn [listen].
  destruct (on_signal cat s p) as [p1 evs1] eqn:E1.
  destruct (listen cat rest p1) as [p2 evs2] eqn:E2.
  assert (p1 = p) as ->.
  { destruct s, p; simpl in E1; try contradiction; congruence. }
  specialize (IH p Hp). rewrite E2 in IH. exact IH.
Qed.

Lemma listen_pending (cat : string) (signals : list Signal) :
  fst (listen cat signals Pending) = settled_by (find is_terminal signals).
Proof.
  induction signals as [|s rest IH]; [reflexivity|].
  cbn [listen find].
  destruct (on_signal cat s Pending) as [p1 evs1] eqn:E1.
  destruct (listen cat rest p1) as [p2 evs2] eqn:E2.
  destruct s; simpl in E1; injection E1 as <- <-; cbn [is_terminal
    is_progress negb settled_by fst].
  - pose proof (listen_settled cat rest (Failed err)) as H.
    rewrite E2 in H. apply H. discriminate.
  - pose proof (listen_settled cat rest Fulfilled) as H.
    rewrite E2 in H. apply H. discriminate.
  - rewrite E2 in IH. exact IH.
Qed.

Lemma promise_of_encodeVideo (vp op : string) (r : Resolution)
    (signals : list Signal) :
  promise_of (encodeVideo vp op r signals) =
  if truthy op then settled_by (find is_terminal signals)
  else Failed "Invalid output".
Proof.
  unfold encodeVideo, promise_of, after_build.
  destruct (truthy op).
  - rewrite <- (listen_pending (category vp r)).
    now destruct (listen (category vp r) signals Pending).
  - pose proof (listen_settled (category vp r) signals
                  (Failed "Invalid output")) as H.
    destruct (listen (category vp r) signals (Failed "Invalid output")).
    apply H. discriminate.
Qed.

Lemma truthy_not_empty (s : string) : s <> "" -> truthy s = true.
Proof. destruct s; [contradiction|reflexivity]. Qed.

Lemma find_filter_same {A : Type} (f : A -> bool) (l : list A) :
  find f (filter f l) = find f l.
Proof.
  induction l as [|x l IH]; [reflexivity|].
  simpl. destruct (f x) eqn:E; simpl; now rewrite ?E.
Qed.

(** C9, as stated, fails: with the empty output path the command is
    refused while it is built, and the promise is rejected with that
    error although the engine has signalled nothing. *)
Lemma encodeVideo_rejected_without_signal :
  promise_of (encodeVideo "/data/42_clip.mp4" "" R720 [])
    = Failed "Invalid output" /\
  settled_by (find is_terminal []) = Pending /\
  promise_of (encodeVideo "/data/42_clip.mp4" "" R720 [])
    <> settled_by (find is_terminal []).
Proof. repeat split. discriminate. Qed.

(** C9 (amended): [encodeVideo] asks the engine for the size
    [?x<height>] and nothing more about the size.  For a non-empty output
    path its promise is settled by the first signal that is not a progress
    signal: fulfilled by [end], rejected with the engine's error by
    [error]; it is pending as long as only progress has been signalled,
    and once the engine has signalled [end] or [error] it is fulfilled or
    rejected, never both and nothing else.  For the empty output path the
    promise is rejected with [Invalid output] before the engine is
    started.  Dropping the progress signals changes nothing. *)
Theorem encodeVideo_outcome (videoPath outputPath : string)
    (resolution : Resolution) (signals : list Signal) :
  let run := encodeVideo videoPath outputPath resolution signals in
  command_of run =
    mkCommand videoPath outputPath
              ("?x" ++ number_to_string (height resolution)) /\
  promise_of run =
    promise_of (encodeVideo videoPath outputPath resolution
                  (filter is_terminal signals)) /\
  (outputPath = "" -> promise_of run = Failed "Invalid output") /\
  (outputPath <> "" ->
   promise_of run = settled_by (find is_terminal signals) /\
   (promise_of run = Pending <->
    Forall (fun s => is_progress s = true) signals) /\
   (forall before after,
       signals = (map SigProgress before ++ SigEnd :: after)%list ->
       promise_of run = Fulfilled) /\
   (forall before err after,
       signals = (map SigProgress before ++ SigError err :: after)%list ->
       promise_of run = Failed err)).
Proof.
  cbv zeta.
  assert (Hskip : forall before rest,
             find is_terminal (map SigProgress before ++ rest)%list =
             find is_terminal rest).
  { induction before as [|q before IH]; intros rest; [reflexivity|].
    simpl. apply IH. }
  split.
  { unfold encodeVideo, command_of.
    now destruct (listen (category videoPath resolution) signals
                    (after_build outputPath)). }
  split; [now rewrite !promise_of_encodeVideo, find_filter_same|].
  split; [intros ->; now rewrite promise_of_encodeVideo|].
  intros Hout. rewrite promise_of_encodeVideo, (truthy_not_empty _ Hout).
  split; [reflexivity|]. split; [|split].
  - induction signals as [|s rest IH]; [split; [constructor|reflexivity]|].
    destruct s; cbn [find is_terminal is_progress negb settled_by].
    + split; [discriminate|]. intros H. inversion H; discriminate.
    + split; [discriminate|]. intros H. inversion H; discriminate.
    + split.
      * intros H. constructor; [reflexivity|now apply IH].
      * intros H. inversion H; subst. now apply IH.
  - intros before after ->. now rewrite Hskip.
  - intros before err after ->. now rewrite Hskip.
Qed.

Lemma encodeVideo_outcome_witness :
  promise_of (encodeVideo "/data/42_clip.mp4" "/data/7/720p/50_clip.mp4"
                R720 [SigProgress (1 # 2); SigProgress (99 # 1); SigEnd])
    = Fulfilled /\
  promise_of (encodeVideo "/data/42_clip.mp4" "/data/7/720p/50_clip.mp4"
                R720 [SigProgress (1 # 2); SigError "moov atom not found"])
    = Failed "moov atom not found" /\
  promise_of (encodeVideo "/data/42_clip.mp4" "" R720 [])
    = Failed "Invalid output".
Proof.
  split; [|split].
  - destruct (encodeVideo_outcome "/data/42_clip.mp4"
                "/data/7/720p/50_clip.mp4" R720
                [SigProgress (1 # 2); SigProgress (99 # 1); SigEnd])
      as (_ & _ & _ & H).
    destruct H as (_ & _ & Hend & _); [discriminate|].
    apply (Hend [1 # 2; 99 # 1] []). reflexivity.
  - destruct (encodeVideo_outcome "/data/42_clip.mp4"
                "/data/7/720p/50_clip.mp4" R720
                [SigProgress (1 # 2); SigError "moov atom not found"])
      as (_ & _ & _ & H).
    destruct H as (_ & _ & _ & Herr); [discriminate|].
    apply (Herr [1 # 2] "moov atom not found" []). reflexivity.
  - apply (encodeVideo_outcome "/data/42_clip.mp4" "" R720 []).
    reflexivity.
Defined.

End EncodeProperties.

(* ------------------------------------------------------------------ *)
(** ** [deleteVideo] *)

Section DeleteFacts.
Context {W : Type} {P : Platform W}.
Import Model Paths.

(** On every platform and in every world [deleteVideo] returns normally
    and issues its three requests in order, whatever each one answers; a
    failure of [rm] or [rmdir] is handed to the logger, a failure of
    [destroy] is left unhandled. *)
Lemma deleteVideo_run (video : Video) (w : W) :
  let category := "VIDEO DELETE : " ++ id video in
  let dir := dirname (source video) ++ "/" ++ id video in
  let '(r1, w1) := fs_rm (source video) w in
  let '(r2, w2) := fs_rmdir dir w1 in
  let '(r3, w3) := video_destroy video w2 in
  deleteVideo video w =
  (Resolved tt, mkState w3 video,
   (Did (OpRm (source video)) r1 ::
    match r1 with Some e => [Log category LvlError e] | None => [] end ++
    Did (OpRmdir dir) r2 ::
    match r2 with Some e => [Log category LvlError e] | None => [] end ++
    Did (OpDestroy video) r3 ::
    match r3 with Some e => [Unhandled e] | None => [] end)%list).
Proof.
  cbv zeta. unfold deleteVideo, deleteVideo_body, bind, request.
  cbn [world obj].
  destruct (fs_rm (source video) w) as [r1 w1]. cbn [world obj].
  destruct r1 as [e1|]; cbn [log_if_failed logger ret world obj];
    destruct (fs_rmdir _ w1) as [r2 w2]; cbn [world obj];
    destruct r2 as [e2|]; cbn [log_if_failed logger ret world obj];
    destruct (video_destroy video w2) as [r3 w3]; cbn [world obj];
    destruct r3 as [e3|]; reflexivity.
Qed.

Lemma deleteVideo_requests (video : Video) (w : W) :
  exists st evs,
    deleteVideo video w = (Resolved tt, st, evs) /\
    Trace.requests evs =
      [OpRm (source video);
       OpRmdir (dirname (source video) ++ "/" ++ id video);
       OpDestroy video].
Proof.
  pose proof (deleteVideo_run video w) as H. cbv zeta in H.
  destruct (fs_rm (source video) w) as [r1 w1].
  destruct (fs_rmdir _ w1) as [r2 w2].
  destruct (video_destroy video w2) as [r3 w3].
  rewrite H. do 2 eexists. split; [reflexivity|].
  destruct r1, r2, r3; reflexivity.
Qed.

End DeleteFacts.

Section DeleteProperties.
Import Model Paths Disk.

(** C8: the code at a store that cannot be reached.  The file and the
    directory are removed, [destroy] is requested and fails, and no line
    reaches the logger: the rejection stays unhandled and the row stays.
    When it is the primary file that is missing, the failure is logged
    and the directory and the row are removed all the same. *)
Theorem deleteVideo_destroy_failure_not_logged :
  let down := mkDisk [] (files clip_disk) false [clip] in
  let gone := mkDisk [] ["/data/7/480p/50_clip.mp4"] true [clip] in
  (exists st,
      deleteVideo clip down =
      (Resolved tt, st,
       [Did (OpRm "/data/42_clip.mp4") None;
        Did (OpRmdir "/data/7") None;
        Did (OpDestroy clip) (Some "store unreachable");
        Unhandled "store unreachable"]) /\
      files (world st) = [] /\ rows (world st) = [clip]) /\
  (exists st evs,
      deleteVideo clip gone = (Resolved tt, st, evs) /\
      Trace.logged evs = [(LvlError, "ENOENT: /data/42_clip.mp4")] /\
      files (world st) = [] /\ rows (world st) = []).
Proof.
  cbv zeta. split.
  - eexists. split; [vm_compute; reflexivity|]. split; reflexivity.
  - do 2 eexists. split; [vm_compute; reflexivity|]. repeat split.
Qed.

End DeleteProperties.

(* ------------------------------------------------------------------ *)
(** ** [updateVideoName] *)

Section RenameFacts.
Context {W : Type} {P : Platform W}.
Import Js Model Paths Trace.

Lemma format_get_set_same (r : Resolution) (p : string) (f : Format) :
  format_get r (format_set r p f) = Some p.
Proof. now destruct r. Qed.

Lemma format_get_set_other (r r' : Resolution) (p : string) (f : Format) :
  r <> r' -> format_get r' (format_set r p f) = format_get r' f.
Proof. destruct r, r'; intros H; reflexivity || contradiction. Qed.

Lemma all_resolutions_NoDup : NoDup all_resolutions.
Proof.
  unfold all_resolutions.
  repeat (constructor; [simpl; intuition discriminate|]). constructor.
Qed.

Lemma object_keys_NoDup (f : Format) : NoDup (object_keys f).
Proof. apply NoDup_filter, all_resolutions_NoDup. Qed.

Lemma has_file_key (f : Format) (r : Resolution) :
  has_file f r = true -> In r (object_keys f).
Proof.
  unfold has_file, object_keys. intros H. apply filter_In. split.
  - destruct r; simpl; tauto.
  - now destruct (format_get r f).
Qed.

Lemma filter_filter_sub {A : Type} (f g : A -> bool) (l : list A) :
  (forall x, f x = true -> g x = true) ->
  filter f (filter g l) = filter f l.
Proof.
  intros Hsub. induction l as [|x l IH]; [reflexivity|].
  simpl. destruct (g x) eqn:Eg; simpl; destruct (f x) eqn:Ef;
    rewrite ?IH; try reflexivity.
  apply Hsub in Ef. congruence.
Qed.

Lemma derived_object_keys (f : Format) :
  filter (has_file f) (object_keys f) = derived f.
Proof.
  apply filter_filter_sub. intros r H. unfold has_file in H.
  now destruct (format_get r f).
Qed.

(** One turn of the loop. *)
Lemma rename_derived_run (newName : string) (key : Resolution)
    (st : State W) :
  rename_derived newName key st =
  if has_file (format (obj st)) key then
    let oldPath := format_path key (format (obj st)) in
    let '(t, w1) := date_now (world st) in
    let newPath := updateVideoPath t oldPath newName in
    let '(r, w2) := fs_rename oldPath newPath w1 in
    (match r with Some e => Rejected e | None => Resolved tt end,
     mkState w2 (with_format key newPath (obj st)),
     [Did (OpRename oldPath newPath) r])
  else (Resolved tt, st, []).
Proof.
  unfold rename_derived, has_file, format_path, bind, read_video.
  destruct (format_get key (format (obj st))) as [oldPath|]; [|reflexivity].
  destruct (truthy oldPath); [|reflexivity].
  rewrite updateVideoPathM_run. cbn [world obj fst snd].
  destruct (date_now (world st)) as [t w1]. cbn [fst snd].
  unfold write_video, await, bind, request. cbn [world obj].
  destruct (fs_rename oldPath _ w1) as [r w2]. cbn [world obj].
  destruct r; reflexivity.
Qed.

(** The loop only moves files: its events are moves that succeeded,
    followed by one that failed exactly when the loop is left by a
    rejection. *)
Lemma for_of_rename_events (newName : string) (keys : list Resolution) :
  forall (st st' : State W) (out : Outcome unit) (evs : list Event),
    for_of keys (rename_derived newName) st = (out, st', evs) ->
    exists done,
      (out = Resolved tt /\ evs = map moved done) \/
      (exists from to e,
          out = Rejected e /\
          evs = (map moved done ++ [Did (OpRename from to) (Some e)])%list).
Proof.
  induction keys as [|key keys IH]; intros st st' out evs Hrun.
  - injection Hrun as <- <- <-. exists []. now left.
  - cbn [for_of] in Hrun. unfold bind in Hrun.
    rewrite rename_derived_run in Hrun.
    destruct (has_file (format (obj st)) key).
    + cbv zeta in Hrun. destruct (date_now (world st)) as [t w1].
      destruct (fs_rename _ _ w1) as [[e|] w2].
      * injection Hrun as <- <- <-. exists []. right.
        do 3 eexists. split; reflexivity.
      * destruct (for_of keys _ _) as [[out1 st1] evs1] eqn:E.
        injection Hrun as <- <- <-.
        destruct (IH _ _ _ _ E) as [done [[-> ->]|(from & to & e & -> & ->)]].
        -- exists ((format_path key (format (obj st)),
                    updateVideoPath t (format_path key (format (obj st)))
                      newName) :: done). now left.
        -- exists ((format_path key (format (obj st)),
                    updateVideoPath t (format_path key (format (obj st)))
                      newName) :: done). right.
           do 3 eexists. split; reflexivity.
    + destruct (for_of keys _ st) as [[out1 st1] evs1] eqn:E.
      injection Hrun as <- <- <-. exact (IH _ _ _ _ E).
Qed.

(** What a loop that ran to its end has done. *)
Lemma for_of_rename_resolved (newName : string) (keys : list Resolution) :
  NoDup keys ->
  forall (st st' : State W) (evs : list Event),
    for_of keys (rename_derived newName) st = (Resolved tt, st', evs) ->
    evs = map (fun r => moved (format_path r (format (obj st)),
                               format_path r (format (obj st'))))
              (filter (has_file (format (obj st))) keys) /\
    (forall r, In r keys -> has_file (format (obj st)) r = true ->
               exists t,
                 format_get r (format (obj st')) =
                 Some (updateVideoPath t (format_path r (format (obj st)))
                         newName)) /\
    (forall r, ~ In r keys \/ has_file (format (obj st)) r = false ->
               format_get r (format (obj st')) =
               format_get r (format (obj st))) /\
    source (obj st') = source (obj st) /\
    id (obj st') = id (obj st).
Proof.
  induction keys as [|key keys IH]; intros Hnd st st' evs Hrun.
  - injection Hrun as <- <-. repeat split; trivial. intros r [].
  - inversion Hnd as [|? ? Hnotin Hnd']; subst.
    cbn [for_of] in Hrun. unfold bind in Hrun.
    rewrite rename_derived_run in Hrun. cbn [filter].
    destruct (has_file (format (obj st)) key) eqn:Hkey.
    + cbv zeta in Hrun. destruct (date_now (world st)) as [t w1].
      set (oldPath := format_path key (format (obj st))) in *.
      set (newPath := updateVideoPath t oldPath newName) in *.
      destruct (fs_rename oldPath newPath w1) as [[e|] w2];
        [discriminate|].
      set (st1 := mkState w2 (with_format key newPath (obj st))) in *.
      destruct (for_of keys _ st1) as [[out1 st2] evs1] eqn:E.
      destruct out1 as [[]|e]; [|discriminate].
      injection Hrun as <- <-.
      destruct (IH Hnd' _ _ _ E) as (Hevs & Hnew & Hsame & Hsrc & Hid).
      assert (Hget1 : forall r, r <> key ->
                 format_get r (format (obj st1)) =
                 format_get r (format (obj st))).
      { intros r Hr. unfold st1. cbn [obj with_format format].
        apply format_get_set_other. congruence. }
      assert (Hfile1 : forall r, r <> key ->
                 has_file (format (obj st1)) r =
                 has_file (format (obj st)) r).
      { intros r Hr. unfold has_file. now rewrite Hget1. }
      assert (Hpath1 : forall r, r <> key ->
                 format_path r (format (obj st1)) =
                 format_path r (format (obj st))).
      { intros r Hr. unfold format_path. now rewrite Hget1. }
      assert (Hkey' : format_get key (format (obj st2)) = Some newPath).
      { rewrite Hsame by now left. unfold st1.
        cbn [obj with_format format]. apply format_get_set_same. }
      assert (Hin : forall r, In r keys -> r <> key)
        by (intros r Hr ->; contradiction).
      split; [|split; [|split; [|split]]].
      * cbn [map app]. f_equal.
        -- unfold moved. cbn [fst snd]. unfold format_path at 2.
           now rewrite Hkey'.
        -- rewrite Hevs.
           rewrite (filter_ext_in (has_file (format (obj st1)))
                      (has_file (format (obj st))) keys)
             by (intros r Hr; apply Hfile1; now apply Hin).
           apply map_ext_in. intros r Hr. apply filter_In in Hr as [Hr _].
           now rewrite Hpath1 by now apply Hin.
      * intros r [<-|Hr] Hfile; [now exists t|].
        destruct (Hnew r Hr) as [t' Ht'];
          [now rewrite Hfile1 by now apply Hin|].
        exists t'. now rewrite Ht', Hpath1 by now apply Hin.
      * intros r [Hr|Hr].
        -- rewrite Hsame by (left; intros Hr'; apply Hr; now right).
           apply Hget1. intros ->. apply Hr. now left.
        -- assert (r <> key) by congruence.
           rewrite Hsame by (right; now rewrite Hfile1).
           now apply Hget1.
      * now rewrite Hsrc.
      * now rewrite Hid.
    + destruct (for_of keys _ st) as [[out1 st2] evs1] eqn:E.
      injection Hrun as -> <- <-.
      destruct (IH Hnd' _ _ _ E) as (Hevs & Hnew & Hsame & Hsrc & Hid).
      split; [exact Hevs|]. split; [|split; [|split]]; trivial.
      * intros r [<-|Hr] Hfile; [congruence|auto].
      * intros r [Hr|Hr]; apply Hsame.
        -- left. intros Hr'. apply Hr. now right.
        -- now right.
Qed.

End RenameFacts.

Section RenameRun.
Context {W : Type} {P : Platform W}.
Import Js Model Paths Trace.

(** [updateVideoName], step by step. *)
Lemma updateVideoName_run (video : Video) (newName : string) (w : W) :
  let oldPath := source video in
  let '(t1, w1) := date_now w in
  let '(t2, w2) := date_now w1 in
  let newPath := updateVideoPath t1 oldPath newName in
  let video1 := with_source (updateVideoPath t2 oldPath newName) video in
  let '(r, w3) := fs_rename oldPath newPath w2 in
  updateVideoName video newName w =
  match r with
  | Some e =>
      (Rejected e, mkState w3 video1,
       [Did (OpRename oldPath newPath) (Some e)])
  | None =>
      match for_of (object_keys (format video)) (rename_derived newName)
              (mkState w3 video1) with
      | (Rejected e, st', evs) =>
          (Rejected e, st', Did (OpRename oldPath newPath) None :: evs)
      | (Resolved _, st', evs) =>
          let '(rs, w4) := video_save (obj st') (world st') in
          (match rs with
           | Some e => Rejected e
           | None => Resolved (obj st')
           end,
           mkState w4 (obj st'),
           Did (OpRename oldPath newPath) None ::
             (evs ++ [Did (OpSave (obj st')) rs])%list)
      end
  end.
Proof.
  cbv zeta. unfold updateVideoName, updateVideoName_body.
  unfold bind at 1. unfold read_video at 1. cbn [obj world].
  unfold bind at 1. rewrite updateVideoPathM_run. cbn [obj world].
  destruct (date_now w) as [t1 w1]. cbn [fst snd].
  unfold bind at 1. rewrite updateVideoPathM_run. cbn [obj world].
  destruct (date_now w1) as [t2 w2]. cbn [fst snd].
  unfold bind at 1. unfold write_video at 1. cbn [obj world].
  unfold bind at 1. unfold await at 1, bind at 1, request at 1.
  cbn [obj world].
  destruct (fs_rename (source video) _ w2) as [[e|] w3]; [reflexivity|].
  cbn [ret throw app].
  unfold bind at 1. unfold read_video at 1. cbn [obj world with_source format].
  unfold bind at 1.
  destruct (for_of _ _ _) as [[[[]|e] st'] evs]; [|reflexivity].
  unfold bind at 1. unfold read_video at 1.
  unfold bind at 1. unfold await, bind, request.
  destruct (video_save (obj st') (world st')) as [[e|] w4]; cbn;
    rewrite ?app_nil_r; reflexivity.
Qed.

Lemma saves_moved (done : list (string * string)) :
  saves (map moved done) = [].
Proof. induction done as [|[a b] done IH]; [reflexivity|exact IH]. Qed.

Lemma saves_app (evs evs' : list Event) :
  saves (evs ++ evs')%list = (saves evs ++ saves evs')%list.
Proof.
  induction evs as [|ev evs IH]; [reflexivity|].
  destruct ev as [[] []| |]; simpl; now rewrite ?IH.
Qed.

Lemma moves_moved (done : list (string * string)) :
  moves (map moved done) = done.
Proof.
  induction done as [|[a b] done IH]; [reflexivity|].
  simpl. now rewrite IH.
Qed.

Lemma moves_app (evs evs' : list Event) :
  moves (evs ++ evs')%list = (moves evs ++ moves evs')%list.
Proof.
  induction evs as [|ev evs IH]; [reflexivity|].
  destruct ev as [[] []| |]; simpl; now rewrite ?IH.
Qed.

(** Every run is a sequence of moves that succeeded, closed either by
    the one save of the final object (the call resolves) or by the one
    request that failed (the call is rejected with its error). *)
Lemma updateVideoName_events (video : Video) (newName : string) (w : W)
    (out : Outcome Video) (st : State W) (evs : list Event) :
  updateVideoName video newName w = (out, st, evs) ->
  exists done,
    match out with
    | Resolved v =>
        v = obj st /\
        evs = (map moved done ++ [Did (OpSave v) None])%list
    | Rejected e =>
        exists op, evs = (map moved done ++ [Did op (Some e)])%list
    end.
Proof.
  intros Hrun. pose proof (updateVideoName_run video newName w) as Heq.
  cbv zeta in Heq.
  destruct (date_now w) as [t1 w1], (date_now w1) as [t2 w2].
  destruct (fs_rename _ _ w2) as [[e|] w3]; rewrite Heq in Hrun; clear Heq.
  - injection Hrun as <- <- <-. exists []. now eexists.
  - destruct (for_of _ _ _) as [[out1 st1] evs1] eqn:E.
    destruct (for_of_rename_events _ _ _ _ _ _ E)
      as [done [[-> ->]|(from & to & e & -> & ->)]].
    + destruct (video_save _ _) as [[e|] w4];
        injection Hrun as <- <- <-;
        exists ((source video,
                 updateVideoPath t1 (source video) newName) :: done).
      * now eexists.
      * now split.
    + injection Hrun as <- <- <-.
      exists ((source video,
               updateVideoPath t1 (source video) newName) :: done).
      now eexists.
Qed.

(** A call is rejected only with the error of a request that failed: when
    every request goes through, the call resolves. *)
Lemma updateVideoName_rejected_by_failure (video : Video)
    (newName : string) (w : W) (e : Error) (st : State W)
    (evs : list Event) :
  updateVideoName video newName w = (Rejected e, st, evs) ->
  exists op, In (Did op (Some e)) evs.
Proof.
  intros Hrun.
  destruct (updateVideoName_events _ _ _ _ _ _ Hrun) as (done & op & ->).
  exists op. apply in_or_app. right. now left.
Qed.

End RenameRun.

Section RenameReplay.
Context {W : Type} {P : Platform W}.
Import Js Model Paths Trace.

Lemma replay_app (s1 s2 : list (nat * Op)) (w : W) :
  replay (s1 ++ s2)%list w =
  let '(evs1, w1) := replay s1 w in
  let '(evs2, w2) := replay s2 w1 in
  ((evs1 ++ evs2)%list, w2).
Proof.
  revert w. induction s1 as [|[n op] s1 IH]; intros w.
  - cbn [app replay]. now destruct (replay s2 w).
  - cbn [app replay]. destruct (perform op (after_readings n w)) as [r w1].
    rewrite IH. destruct (replay s1 w1) as [evs1 w2].
    now destruct (replay s2 w2).
Qed.

(** A loop that ran to its end has, for each entry holding a path, read
    the clock once and asked the platform for the move; its events are
    the platform's answers and its world the one the platform left. *)
Lemma for_of_rename_replay (newName : string) (keys : list Resolution) :
  NoDup keys ->
  forall (st st' : State W) (evs : list Event),
    for_of keys (rename_derived newName) st = (Resolved tt, st', evs) ->
    replay (map (fun r => (1%nat,
                           OpRename (format_path r (format (obj st)))
                                    (format_path r (format (obj st')))))
                (filter (has_file (format (obj st))) keys))
           (world st) = (evs, world st').
Proof.
  induction keys as [|key keys IH]; intros Hnd st st' evs Hrun.
  - injection Hrun as <- <-. reflexivity.
  - inversion Hnd as [|? ? Hnotin Hnd']; subst.
    cbn [for_of] in Hrun. unfold bind in Hrun.
    rewrite rename_derived_run in Hrun. cbn [filter].
    destruct (has_file (format (obj st)) key) eqn:Hkey.
    + cbv zeta in Hrun.
      destruct (date_now (world st)) as [t w1] eqn:Et.
      set (oldPath := format_path key (format (obj st))) in *.
      set (newPath := updateVideoPath t oldPath newName) in *.
      destruct (fs_rename oldPath newPath w1) as [[e|] w2] eqn:Er;
        [discriminate|].
      set (st1 := mkState w2 (with_format key newPath (obj st))) in *.
      destruct (for_of keys _ st1) as [[out1 st2] evs1] eqn:E.
      destruct out1 as [[]|e]; [|discriminate].
      injection Hrun as <- <-.
      destruct (for_of_rename_resolved _ _ Hnd' _ _ _ E)
        as (_ & _ & Hsame & _ & _).
      assert (Hget1 : forall r, r <> key ->
                 format_get r (format (obj st1)) =
                 format_get r (format (obj st))).
      { intros r Hr. unfold st1. cbn [obj with_format format].
        apply format_get_set_other. congruence. }
      assert (Hkey' : format_path key (format (obj st2)) = newPath).
      { unfold format_path. rewrite Hsame by now left. unfold st1.
        cbn [obj with_format format]. now rewrite format_get_set_same. }
      assert (Hin : forall r, In r keys -> r <> key)
        by (intros r Hr ->; contradiction).
      cbn [map replay after_readings perform]. rewrite Et. cbn [snd].
      rewrite Hkey'. fold oldPath. rewrite Er.
      pose proof (IH Hnd' _ _ _ E) as Hrest.
      rewrite (filter_ext_in (has_file (format (obj st1)))
                 (has_file (format (obj st))) keys) in Hrest
        by (intros r Hr; unfold has_file; now rewrite Hget1 by now apply Hin).
      rewrite (map_ext_in _
                 (fun r => (1%nat,
                            OpRename (format_path r (format (obj st)))
                                     (format_path r (format (obj st2))))))
        in Hrest.
      * change (world st1) with w2 in Hrest. now rewrite Hrest.
      * intros r Hr. apply filter_In in Hr as [Hr _].
        unfold format_path. now rewrite Hget1 by now apply Hin.
    + destruct (for_of keys _ st) as [[out1 st2] evs1] eqn:E.
      injection Hrun as -> <- <-. exact (IH Hnd' _ _ _ E).
Qed.

End RenameReplay.

Section RenameProperties.
Context {W : Type} {P : Platform W}.
Import Js Model Paths Trace.

(** C2 (amended): when the move of the primary file fails,
    [updateVideoName] is rejected with the error of the move; that move
    is the only request of the run, so no derived file has been moved and
    nothing has been saved; the format map of the video object is as it
    was, and its source has already been reassigned to a renamed path.
    In every run the record is saved at most once, as the last request,
    after moves that all succeeded, and what is saved is the final video
    object; a rejected run has saved nothing. *)
Theorem updateVideoName_primary_move_fails (video : Video)
    (newName : string) (w : W) :
  (forall t1 w1 t2 w2 e w3,
      date_now w = (t1, w1) ->
      date_now w1 = (t2, w2) ->
      fs_rename (source video)
                (updateVideoPath t1 (source video) newName) w2
        = (Some e, w3) ->
      updateVideoName video newName w =
      (Rejected e,
       mkState w3
         (mkVideo (id video)
                  (updateVideoPath t2 (source video) newName)
                  (format video)),
       [Did (OpRename (source video)
                      (updateVideoPath t1 (source video) newName))
            (Some e)])) /\
  (forall out st evs,
      updateVideoName video newName w = (out, st, evs) ->
      match out with
      | Resolved v =>
          v = obj st /\ saves evs = [v] /\
          exists done, evs = (map moved done ++ [Did (OpSave v) None])%list
      | Rejected e =>
          saves evs = [] /\
          exists done op, evs = (map moved done ++ [Did op (Some e)])%list
      end).
Proof.
  split.
  - intros t1 w1 t2 w2 e w3 H1 H2 H3.
    pose proof (updateVideoName_run video newName w) as Heq.
    cbv zeta in Heq. rewrite H1, H2, H3 in Heq. exact Heq.
  - intros out st evs Hrun.
    destruct (updateVideoName_events _ _ _ _ _ _ Hrun) as [done Hd].
    destruct out as [v|e].
    + destruct Hd as [-> ->]. split; [reflexivity|]. split.
      * now rewrite saves_app, saves_moved.
      * now exists done.
    + destruct Hd as [op ->]. split.
      * rewrite saves_app, saves_moved. now destruct op.
      * now exists done, op.
Qed.

(** C3 (amended): a rename none of whose moves fails moves the primary
    file and, for each resolution whose entry of the format map holds a
    path, in the order of the keys, the file of that entry; it then asks
    for the save, and these are all its requests.  So it moves one file
    more than there are such resolutions.  The requests are put to the
    platform: replaying them, with two clock readings before the primary
    move and one before each derived move, gives the events of the run and
    the world it ends in.  The new path of an entry is computed by
    [updateVideoPath] from the path the entry held and the new name, and
    the entry holds the path the file was moved to; the other entries are
    as they were.  The call resolves with the video object unless the save
    fails.  A resolution counts as present when its entry holds a path,
    which is the guard [if (oldPath)] of the loop; if no entry holds the
    empty string these are the keys of the map. *)
Theorem updateVideoName_moves (video : Video) (newName : string) (w : W)
    (out : Outcome Video) (st' : State W) (evs : list Event) :
  updateVideoName video newName w = (out, st', evs) ->
  no_move_failed evs = true ->
  let format' := format (obj st') in
  let derived_moves :=
    map (fun r => (format_path r (format video), format_path r format'))
        (derived (format video)) in
  (exists t,
      let newPrimary := updateVideoPath t (source video) newName in
      moves evs = (source video, newPrimary) :: derived_moves /\
      requests evs =
        (map (fun m => OpRename (fst m) (snd m))
             ((source video, newPrimary) :: derived_moves) ++
         [OpSave (obj st')])%list /\
      replay ((2%nat, OpRename (source video) newPrimary) ::
              map (fun m => (1%nat, OpRename (fst m) (snd m)))
                  derived_moves ++
              [(0%nat, OpSave (obj st'))])%list w
        = (evs, world st')) /\
  length (moves evs) = S (length (derived (format video))) /\
  (forall r, has_file (format video) r = true ->
             exists t,
               format_get r format' =
               Some (updateVideoPath t (format_path r (format video))
                       newName)) /\
  (forall r, has_file (format video) r = false ->
             format_get r format' = format_get r (format video)) /\
  (out = Resolved (obj st') \/
   exists e, out = Rejected e /\ In (Did (OpSave (obj st')) (Some e)) evs) /\
  ((forall r, format_get r (format video) <> Some "") ->
   derived (format video) = object_keys (format video)).
Proof.
  intros Hrun Hok. cbv zeta.
  pose proof (updateVideoName_run video newName w) as Heq.
  cbv zeta in Heq.
  destruct (date_now w) as [t1 w1] eqn:E1.
  destruct (date_now w1) as [t2 w2] eqn:E2.
  destruct (fs_rename _ _ w2) as [[e|] w3] eqn:E3;
    rewrite Heq in Hrun; clear Heq.
  { injection Hrun as <- <- <-. discriminate. }
  destruct (for_of _ _ _) as [[out1 st1] evs1] eqn:E.
  destruct out1 as [[]|e].
  2:{ injection Hrun as <- <- <-.
      destruct (for_of_rename_events _ _ _ _ _ _ E)
        as [done [[[=] _]|(from & to & e' & _ & ->)]].
      unfold no_move_failed in Hok. cbn [forallb move_went_through] in Hok.
      rewrite forallb_app in Hok. cbn in Hok.
      now rewrite andb_false_r in Hok. }
  destruct (for_of_rename_resolved _ _ (object_keys_NoDup _) _ _ _ E)
    as (Hevs & Hnew & Hsame & _ & _).
  pose proof (for_of_rename_replay _ _ (object_keys_NoDup _) _ _ _ E)
    as Hreplay.
  cbn [obj world with_source format] in Hevs, Hnew, Hsame, Hreplay.
  rewrite derived_object_keys in Hevs, Hreplay.
  set (pairs := map (fun r => (format_path r (format video),
                               format_path r (format (obj st1))))
                    (derived (format video))) in *.
  assert (Hevs' : evs1 = map moved pairs)
    by (unfold pairs; now rewrite map_map).
  assert (Hreplay' : replay (map (fun m => (1%nat,
                                            OpRename (fst m) (snd m)))
                                 pairs) w3 = (evs1, world st1))
    by (unfold pairs; now rewrite map_map).
  assert (Hreq : forall l, requests (map moved l) =
                           map (fun m => OpRename (fst m) (snd m)) l).
  { induction l as [|[a b] l IH]; [reflexivity|]. simpl. now rewrite IH. }
  assert (Hreq_app : forall l l', requests (l ++ l')%list =
                                  (requests l ++ requests l')%list).
  { induction l as [|[] l IH]; intros l'; simpl; now rewrite ?IH. }
  assert (Hevs_all : exists rs,
             evs = (map moved ((source video,
                                updateVideoPath t1 (source video) newName)
                               :: pairs) ++
                    [Did (OpSave (obj st1)) rs])%list /\
             obj st' = obj st1 /\
             video_save (obj st1) (world st1) = (rs, world st') /\
             out = match rs with
                   | Some e => Rejected e
                   | None => Resolved (obj st1)
                   end).
  { destruct (video_save _ _) as [rs w4]. exists rs.
    injection Hrun as <- <- <-. rewrite Hevs'. now repeat split. }
  destruct Hevs_all as (rs & -> & -> & Hsave & ->). clear Hrun Hok.
  split; [|split; [|split; [|split; [|split]]]].
  - exists t1. cbv zeta. split; [|split].
    + rewrite moves_app, moves_moved. destruct rs; apply app_nil_r.
    + now rewrite Hreq_app, Hreq.
    + cbn [replay after_readings perform]. rewrite E1. cbn [snd].
      rewrite E2. cbn [snd]. rewrite E3. fold pairs.
      rewrite replay_app, Hreplay'. cbn [replay after_readings perform].
      rewrite Hsave. cbn [map moved fst snd app]. now rewrite Hevs'.
  - rewrite moves_app, moves_moved.
    replace (moves [Did (OpSave (obj st1)) rs]) with (@nil (string * string))
      by now destruct rs.
    rewrite app_nil_r. cbn [length]. unfold pairs. now rewrite length_map.
  - intros r Hr. apply Hnew; [now apply has_file_key|assumption].
  - intros r Hr. apply Hsame. now right.
  - destruct rs as [e|]; [right|now left].
    exists e. split; [reflexivity|]. apply in_or_app. right. now left.
  - intros Hpaths. unfold derived, object_keys. apply filter_ext.
    intros r. unfold has_file. specialize (Hpaths r).
    destruct (format_get r (format video)) as [[|c s]|]; try reflexivity.
    contradiction.
Qed.

End RenameProperties.

Section RenameExamples.
Import Js Model Paths Trace Disk.

(** C2, as stated, fails: the primary file is missing, the move fails,
    and the source of the video object is no longer the old one. *)
Lemma updateVideoName_source_reassigned_before_move :
  exists e st evs,
    updateVideoName clip "holiday"
      (mkDisk [100; 100]%Z [] true [clip]) = (Rejected e, st, evs) /\
    evs = [Did (OpRename "/data/42_clip.mp4" "/data/100_holiday.mp4")
               (Some e)] /\
    source (obj st) = "/data/100_holiday.mp4" /\
    source (obj st) <> source clip /\
    format (obj st) = format clip /\
    rows (world st) = [clip].
Proof.
  do 3 eexists. split; [vm_compute; reflexivity|].
  repeat split. cbn. discriminate.
Qed.

Lemma updateVideoName_primary_move_fails_witness :
  updateVideoName clip "holiday" (mkDisk [100; 100]%Z [] true [clip]) =
  (Rejected "ENOENT: /data/42_clip.mp4",
   mkState (mkDisk [] [] true [clip])
           (mkVideo "7" "/data/100_holiday.mp4" (format clip)),
   [Did (OpRename "/data/42_clip.mp4" "/data/100_holiday.mp4")
        (Some "ENOENT: /data/42_clip.mp4")]).
Proof.
  apply (proj1 (updateVideoName_primary_move_fails clip "holiday"
                  (mkDisk [100; 100]%Z [] true [clip]))
           100%Z (mkDisk [100]%Z [] true [clip])
           100%Z (mkDisk [] [] true [clip]));
    reflexivity.
Defined.

(** C3, as stated, fails: the asset has derived files at 720 and 480, but
    the file at 720 is missing.  Two files are moved, not three, and the
    entry at 720 holds a path no file was moved to. *)
Lemma updateVideoName_fewer_moves_when_a_move_fails :
  exists out st' evs,
    updateVideoName clip "holiday"
      (mkDisk [100; 100; 102; 103]%Z
              ["/data/42_clip.mp4"; "/data/7/480p/50_clip.mp4"] true [clip])
      = (out, st', evs) /\
    object_keys (format clip) = [R480; R720] /\
    length (moves evs) = 2%nat /\
    format_get R720 (format (obj st'))
      = Some "/data/7/720p/103_holiday.mp4" /\
    mem "/data/7/720p/103_holiday.mp4" (files (world st')) = false.
Proof.
  do 3 eexists. split; [vm_compute; reflexivity|]. repeat split.
Qed.

(** The asset with derived files at 720 and 480: three files are moved,
    and they are on the disk under their new names, the record with them. *)
Lemma updateVideoName_moves_witness :
  exists out st' evs,
    updateVideoName clip "holiday" clip_disk = (out, st', evs) /\
    length (moves evs) = 3%nat /\
    derived (format clip) = [R480; R720] /\
    format_get R720 (format (obj st')) = Some "/data/7/720p/103_holiday.mp4" /\
    format_get R1080 (format (obj st')) = None /\
    files (world st') =
      ["/data/7/720p/103_holiday.mp4"; "/data/7/480p/102_holiday.mp4";
       "/data/100_holiday.mp4"] /\
    rows (world st') = [obj st'] /\
    replay [(2%nat, OpRename "/data/42_clip.mp4" "/data/100_holiday.mp4");
            (1%nat, OpRename "/data/7/480p/50_clip.mp4"
                             "/data/7/480p/102_holiday.mp4");
            (1%nat, OpRename "/data/7/720p/51_clip.mp4"
                             "/data/7/720p/103_holiday.mp4");
            (0%nat, OpSave (obj st'))] clip_disk = (evs, world st').
Proof.
  eassert (Hrun : updateVideoName clip "holiday" clip_disk = (_, _, _))
    by (vm_compute; reflexivity).
  do 3 eexists. split; [exact Hrun|].
  destruct (updateVideoName_moves _ _ _ _ _ _ Hrun eq_refl)
    as ((t & Hmoves & _ & Hreplay) & Hlen & _ & Hsame & _).
  split; [exact Hlen|]. split; [reflexivity|]. split; [reflexivity|].
  split; [apply (Hsame R1080); reflexivity|].
  split; [reflexivity|]. split; [reflexivity|].
  cbv zeta in Hmoves, Hreplay.
  apply (f_equal (fun l => match l with
                           | m :: _ => snd m
                           | [] => ""
                           end)) in Hmoves.
  cbn [moves snd] in Hmoves. rewrite <- Hmoves in Hreplay. exact Hreplay.
Defined.

End RenameExamples.


(* ------------------------------------------------------------------ *)
(** * Further properties of the services *)

(** ** Paths: directory, file, and how the builders compose *)

Section PathAlgebra.
Import Js Model Paths Layout.

Lemma has_char_cut (c : ascii) (s : string) :
  has_char c s = true -> exists a b, s = a ++ String c b.
Proof.
  induction s as [|x s IH]; simpl; [discriminate|].
  destruct (Ascii.eqb x c) eqn:E.
  - apply Ascii.eqb_eq in E as ->. intros _. now exists "", s.
  - simpl. intros H. destruct (IH H) as (a & b & ->).
    now exists (String x a), b.
Qed.

(** The last segment of [a ++ b] is that of [b] as soon as [b] holds the
    separator. *)
Lemma pop_split_app_has (c : ascii) (a b : string) :
  has_char c b = true -> pop (split c (a ++ b)) = pop (split c b).
Proof.
  intros H. destruct (has_char_cut c b H) as (x & y & ->).
  rewrite <- string_app_assoc. now rewrite !pop_split_app_sep.
Qed.

Lemma pop_removelast {A : Type} (l : list A) (x : A) :
  pop l = Some x -> l = (removelast l ++ [x])%list.
Proof.
  induction l as [|y l IH]; [discriminate|].
  destruct l as [|z l]; [now intros [= ->]|].
  intros H. change (removelast (y :: z :: l)) with (y :: removelast (z :: l)).
  simpl app. f_equal. now apply IH.
Qed.

Lemma join_app_last (sep : string) (l : list string) (x : string) :
  l <> [] -> join sep (l ++ [x])%list = join sep l ++ sep ++ x.
Proof.
  induction l as [|y l IH]; [contradiction|]. intros _.
  destruct l as [|z l]; [reflexivity|].
  change ((y :: z :: l) ++ [x])%list with (y :: ((z :: l) ++ [x]))%list.
  change (((z :: l) ++ [x]))%list with (z :: (l ++ [x]))%list at 1.
  rewrite join_cons.
  change (z :: (l ++ [x]))%list with ((z :: l) ++ [x])%list.
  rewrite IH by discriminate.
  rewrite join_cons. now rewrite !string_app_assoc.
Qed.

Lemma basename_clean (p : string) : has_char "/" (basename p) = false.
Proof.
  unfold basename. destruct (pop_split_some "/" p) as (seg & E & H).
  now rewrite E.
Qed.

Lemma basename_no_slash (p : string) :
  has_char "/" p = false -> basename p = p.
Proof. intros H. unfold basename. now rewrite pop_split_no_sep. Qed.

Lemma dirname_no_slash (p : string) :
  has_char "/" p = false -> dirname p = "".
Proof.
  intros H. unfold dirname. now rewrite slice_drop_last, split_no_sep.
Qed.

Lemma basename_app (d file : string) :
  has_char "/" file = false -> basename (d ++ "/" ++ file) = file.
Proof.
  intros H. unfold basename.
  change (d ++ "/" ++ file) with (d ++ String "/" file).
  now rewrite pop_split_app_sep, pop_split_no_sep.
Qed.

(** A path with a slash is its directory, a slash, and its file. *)
Lemma path_decompose (p : string) :
  has_char "/" p = true -> p = dirname p ++ "/" ++ basename p.
Proof.
  intros H. destruct (has_char_cut "/" p H) as (a & b & Hp).
  unfold dirname, basename. rewrite slice_drop_last.
  destruct (pop_split_some "/" p) as (seg & E & _). rewrite E.
  cbn [or_undefined].
  rewrite <- join_app_last.
  - rewrite <- (pop_removelast _ _ E). symmetry. apply join_split.
  - rewrite Hp, split_app_sep.
    rewrite removelast_app by apply split_not_nil.
    pose proof (split_not_nil "/" a) as Ha.
    destruct (split "/" a); [contradiction|discriminate].
Qed.

(** The extension of a path is that of its file when the file has one. *)
Lemma extension_basename (p : string) :
  has_char "." (basename p) = true -> extension p = extension (basename p).
Proof.
  intros H. destruct (has_char "/" p) eqn:Hs.
  - rewrite (path_decompose p Hs) at 1. unfold extension.
    rewrite <- string_app_assoc. now apply pop_split_app_has.
  - now rewrite basename_no_slash.
Qed.

Lemma extension_of_file_clean (p : string) :
  has_char "." (basename p) = true ->
  has_char "/" (or_undefined (extension p)) = false.
Proof.
  intros H. rewrite (extension_basename p H).
  apply extension_clean, basename_clean.
Qed.

(** The file of a renamed path. *)
Lemma updateVideoPath_basename (now : Z) (oldPath newName : string) :
  has_char "/" (or_undefined (pop (split "." newName))) = false ->
  has_char "/" (or_undefined (extension oldPath)) = false ->
  basename (updateVideoPath now oldPath newName) =
  number_to_string now ++ "_" ++ or_undefined (pop (split "." newName)) ++
  "." ++ or_undefined (extension oldPath).
Proof.
  intros Hseg Hext. rewrite updateVideoPath_unfold. apply basename_app.
  rewrite !has_char_app, Hseg, Hext.
  now rewrite number_to_string_chars.
Qed.

Lemma has_dot_app (a b : string) : has_char "." (a ++ "." ++ b) = true.
Proof.
  rewrite has_char_app. change ("." ++ b) with (String "." b).
  cbn [has_char]. rewrite Ascii.eqb_refl. apply orb_true_r.
Qed.

Lemma updateVideoPath_basename_dot (now : Z) (oldPath newName : string) :
  has_char "/" (or_undefined (pop (split "." newName))) = false ->
  has_char "/" (or_undefined (extension oldPath)) = false ->
  has_char "." (basename (updateVideoPath now oldPath newName)) = true.
Proof.
  intros Hseg Hext. rewrite updateVideoPath_basename by assumption.
  rewrite <- !string_app_assoc, (string_app_assoc _ "." _).
  apply has_dot_app.
Qed.

(** Two paths [<ts>_<rest>] are equal only for equal timestamps and equal
    rests. *)
Lemma timestamp_cancel (t1 t2 : Z) (rest1 rest2 : string) :
  number_to_string t1 ++ "_" ++ rest1 = number_to_string t2 ++ "_" ++ rest2 ->
  t1 = t2 /\ rest1 = rest2.
Proof.
  intros H. pose proof (f_equal (split "_") H) as Hs.
  rewrite !split_timestamp in Hs. injection Hs as Ht Hr. split.
  - now apply number_to_string_inj.
  - rewrite <- (join_split "_" rest1), <- (join_split "_" rest2).
    now rewrite Hr.
Qed.

End PathAlgebra.

Section PathComposition.
Import Js Model Paths Layout.

Lemma string_length_app (a b : string) :
  String.length (a ++ b) = (String.length a + String.length b)%nat.
Proof. induction a as [|c a IH]; simpl; [reflexivity|now rewrite IH]. Qed.

Lemma string_app_inv_tail (a b c : string) : a ++ c = b ++ c -> a = b.
Proof.
  revert b. induction a as [|x a IH]; intros [|y b] H.
  - reflexivity.
  - apply (f_equal String.length) in H.
    rewrite !string_length_app in H. simpl in H. lia.
  - apply (f_equal String.length) in H.
    rewrite !string_length_app in H. simpl in H. lia.
  - simpl in H. injection H as -> H. f_equal. now apply IH.
Qed.

(** [name.ext] determines [name] and [ext] when [ext] holds no dot. *)
Lemma name_ext_inj (n1 n2 e1 e2 : string) :
  has_char "." e1 = false -> has_char "." e2 = false ->
  n1 ++ "." ++ e1 = n2 ++ "." ++ e2 -> n1 = n2 /\ e1 = e2.
Proof.
  intros H1 H2 H.
  assert (He : e1 = e2).
  { pose proof (f_equal extension H) as Hx.
    rewrite !extension_app in Hx by assumption. congruence. }
  subst e2. split; [|reflexivity]. now apply string_app_inv_tail in H.
Qed.

(** After a rename the name of the video is the new name with the old
    extension: [getVideoName] reads back [<segment>.<ext>], where [segment]
    is the part of the new name after its last dot and [ext] the extension
    of the old source, as long as neither holds a slash.  Underscores in
    the new name are kept. *)
Theorem getVideoName_after_rename (now : Z) (oldPath newName : string)
    (i : string) (fmt : Format) :
  has_char "/" (or_undefined (pop (split "." newName))) = false ->
  has_char "/" (or_undefined (extension oldPath)) = false ->
  getVideoName (mkVideo i (updateVideoPath now oldPath newName) fmt) =
  Some (or_undefined (pop (split "." newName)) ++ "." ++
        or_undefined (extension oldPath)).
Proof.
  intros Hseg Hext. unfold getVideoName. cbn [source].
  pose proof (updateVideoPath_basename now oldPath newName Hseg Hext) as Hb.
  unfold basename in Hb.
  destruct (pop_split_some "/" (updateVideoPath now oldPath newName))
    as (file & E & _).
  rewrite E in *. cbn [or_undefined] in Hb. subst file.
  rewrite split_timestamp, slice_from_one. cbn [tl].
  now rewrite join_split.
Qed.

Lemma getVideoName_after_rename_witness :
  getVideoName
    (mkVideo "7" (updateVideoPath 100 "/data/42_clip.mp4" "summer_holiday")
       empty_format) = Some "summer_holiday.mp4".
Proof.
  apply (getVideoName_after_rename 100 "/data/42_clip.mp4" "summer_holiday");
    reflexivity.
Defined.

(** A derived file named by [generateEncodedVideoPath] in the folder that
    [generateEncodedVideoFolderPath] gives lies in that folder: the folder
    is its directory followed by a slash, and [getVideoName] reads the file
    name back, whenever the file name holds no slash. *)
Theorem generateEncodedVideoPath_in_its_folder (now : Z) (video : Video)
    (resolution : Z) (fileName : string) (i : string) (fmt : Format) :
  has_char "/" fileName = false ->
  let folder := generateEncodedVideoFolderPath video resolution in
  let p := generateEncodedVideoPath now folder fileName in
  starts_with folder p = true /\
  dirname p ++ "/" = folder /\
  basename p = number_to_string now ++ "_" ++ fileName /\
  getVideoName (mkVideo i p fmt) = Some fileName /\
  (has_char "." fileName = true -> in_folder folder p = true).
Proof.
  intros Hfile. cbv zeta.
  unfold generateEncodedVideoPath, generateEncodedVideoFolderPath.
  set (d := dirname (source video) ++ "/" ++ id video ++ "/" ++
            number_to_string resolution ++ "p").
  set (file := number_to_string now ++ "_" ++ fileName).
  assert (Hfolder : dirname (source video) ++ "/" ++ id video ++ "/" ++
                    number_to_string resolution ++ "p/" = d ++ "/")
    by (unfold d; now rewrite !string_app_assoc).
  rewrite Hfolder.
  rewrite !(string_app_assoc d "/" file).
  assert (Hclean : has_char "/" file = false).
  { unfold file. rewrite !has_char_app, Hfile.
    now rewrite number_to_string_chars. }
  assert (Hdir : dirname (d ++ "/" ++ file) = d) by now apply dirname_app.
  assert (Hbase : basename (d ++ "/" ++ file) = file)
    by now apply basename_app.
  split; [|split; [|split; [|split]]].
  - unfold starts_with. rewrite <- string_app_assoc. apply prefix_app.
  - now rewrite Hdir.
  - exact Hbase.
  - unfold getVideoName. cbn [source]. unfold basename in Hbase.
    destruct (pop_split_some "/" (d ++ "/" ++ file)) as (seg & E & _).
    rewrite E in *. cbn [or_undefined] in Hbase. subst seg.
    unfold file. rewrite split_timestamp, slice_from_one. cbn [tl].
    now rewrite join_split.
  - intros Hdot. unfold in_folder. rewrite Hdir, String.eqb_refl, Hbase.
    unfold file. rewrite !has_char_app, Hdot. cbn. apply orb_true_r.
Qed.

Lemma generateEncodedVideoPath_in_its_folder_witness :
  in_folder "/data/7/720p/"
    (generateEncodedVideoPath 51
       (generateEncodedVideoFolderPath Disk.clip 720) "clip.mp4") = true /\
  getVideoName
    (mkVideo "7"
       (generateEncodedVideoPath 51
          (generateEncodedVideoFolderPath Disk.clip 720) "clip.mp4")
       empty_format) = Some "clip.mp4".
Proof.
  destruct (generateEncodedVideoPath_in_its_folder 51 Disk.clip 720
              "clip.mp4" "7" empty_format eq_refl)
    as (_ & _ & _ & Hname & Hin).
  split; [apply Hin; reflexivity|exact Hname].
Defined.

(** A rename forgets the name it replaces: renaming a renamed path gives
    what renaming the first path gives, because the transform keeps
    directory and extension and reads nothing else of the old path.  It
    holds when the first new name and the old extension bring no slash. *)
Theorem updateVideoPath_twice (t1 t2 : Z) (oldPath name1 name2 : string) :
  has_char "/" (or_undefined (pop (split "." name1))) = false ->
  has_char "/" (or_undefined (extension oldPath)) = false ->
  updateVideoPath t2 (updateVideoPath t1 oldPath name1) name2 =
  updateVideoPath t2 oldPath name2.
Proof.
  intros Hseg Hext.
  rewrite (updateVideoPath_unfold t2 (updateVideoPath t1 oldPath name1)).
  rewrite updateVideoPath_extension.
  rewrite updateVideoPath_dirname by assumption.
  symmetry. apply updateVideoPath_unfold.
Qed.

Lemma updateVideoPath_twice_witness :
  updateVideoPath 200 (updateVideoPath 100 "/data/42_clip.mp4" "holiday")
    "summer" = "/data/200_summer.mp4".
Proof.
  rewrite (updateVideoPath_twice 100 200 "/data/42_clip.mp4" "holiday"
             "summer"); reflexivity.
Defined.

(** Within one folder the timestamp keeps uploads apart: two calls of
    [generateVideoPath] give the same path exactly when they read the same
    clock value and have the same declared name and the same file
    extension; two calls of [generateEncodedVideoPath] exactly when they
    read the same clock value and have the same file name. *)
Theorem generated_paths_collide_only_on_same_timestamp (t1 t2 : Z)
    (folder : string) :
  (forall n1 n2 f1 f2,
      generateVideoPath t1 folder (mkRequest n1 (Some f1)) =
      generateVideoPath t2 folder (mkRequest n2 (Some f2)) <->
      t1 = t2 /\ n1 = n2 /\ extension (name f1) = extension (name f2)) /\
  (forall file1 file2,
      generateEncodedVideoPath t1 folder file1 =
      generateEncodedVideoPath t2 folder file2 <->
      t1 = t2 /\ file1 = file2).
Proof.
  split.
  - intros n1 n2 f1 f2. unfold generateVideoPath. cbn [files_source body_name].
    fold (extension (name f1)). fold (extension (name f2)). split.
    + intros H.
      apply (f_equal (fun o => match o with Some x => x | None => "" end))
        in H.
      cbv beta iota in H. do 2 apply string_app_inv_head in H.
      apply timestamp_cancel in H as [Ht H].
      apply name_ext_inj in H as [Hn He]; try apply extension_no_dot.
      repeat split; trivial.
      now rewrite (extension_some (name f1)), (extension_some (name f2)), He.
    + now intros (-> & -> & ->).
  - intros file1 file2. unfold generateEncodedVideoPath. split.
    + intros H. apply string_app_inv_head in H.
      now apply timestamp_cancel in H.
    + now intros [-> ->].
Qed.

Lemma generated_paths_collide_only_on_same_timestamp_witness :
  generateVideoPath 100 "/data"
    (mkRequest "clip" (Some (mkFile "a.mp4"))) <>
  generateVideoPath 101 "/data"
    (mkRequest "clip" (Some (mkFile "b.mp4"))) /\
  generateVideoPath 100 "/data"
    (mkRequest "clip" (Some (mkFile "a.mp4"))) =
  generateVideoPath 100 "/data"
    (mkRequest "clip" (Some (mkFile "b.mp4"))).
Proof.
  destruct (generated_paths_collide_only_on_same_timestamp 100 101 "/data")
    as [H1 _].
  destruct (generated_paths_collide_only_on_same_timestamp 100 100 "/data")
    as [H2 _].
  split.
  - intros E. apply H1 in E as [E _]. discriminate.
  - apply H2. repeat split.
Defined.

Lemma updateVideoPath_same_path_inv (t1 t2 : Z) (oldPath newName : string) :
  updateVideoPath t1 oldPath newName = updateVideoPath t2 oldPath newName ->
  t1 = t2.
Proof.
  rewrite !updateVideoPath_unfold. intros H.
  do 2 apply string_app_inv_head in H.
  now apply timestamp_cancel in H.
Qed.

(** Renaming one path to one name at two clock readings gives the same
    path only for equal readings; more generally two renames of one path
    agree exactly when the readings agree and the new names end, after
    their last dot, in the same segment. *)
Theorem updateVideoPath_same_result (t1 t2 : Z)
    (oldPath name1 name2 : string) :
  updateVideoPath t1 oldPath name1 = updateVideoPath t2 oldPath name2 <->
  t1 = t2 /\ pop (split "." name1) = pop (split "." name2).
Proof.
  rewrite !updateVideoPath_unfold. split.
  - intros H. do 2 apply string_app_inv_head in H.
    apply timestamp_cancel in H as [Ht H].
    apply name_ext_inj in H as [Hn _]; try apply extension_no_dot.
    split; [assumption|].
    destruct (pop_split_some "." name1) as (s1 & E1 & _).
    destruct (pop_split_some "." name2) as (s2 & E2 & _).
    rewrite E1, E2 in *. cbn in Hn. now subst.
  - now intros [-> ->].
Qed.

Lemma updateVideoPath_same_result_witness :
  updateVideoPath 100 "/data/42_clip.mp4" "holiday" <>
  updateVideoPath 101 "/data/42_clip.mp4" "holiday" /\
  updateVideoPath 100 "/data/42_clip.mp4" "my.holiday" =
  updateVideoPath 100 "/data/42_clip.mp4" "holiday".
Proof.
  split.
  - intros E.
    apply (updateVideoPath_same_result 100 101 "/data/42_clip.mp4"
             "holiday" "holiday") in E as [E _]. discriminate.
  - apply (updateVideoPath_same_result 100 100 "/data/42_clip.mp4"
             "my.holiday" "holiday"). split; reflexivity.
Defined.

End PathComposition.

Section PathEdges.
Import Js Model Paths Layout Trace.

Lemma getVideoName_basename (video : Video) :
  getVideoName video =
  Some (join "_" (tl (split "_" (basename (source video))))).
Proof.
  unfold getVideoName, basename.
  destruct (pop_split_some "/" (source video)) as (file & E & _).
  rewrite E. cbn [or_undefined]. now rewrite slice_from_one.
Qed.

(** [getVideoName] never gives [undefined].  It gives what follows the
    first underscore of the file of the source, and the empty string when
    that file holds no underscore. *)
Theorem getVideoName_reads_after_first_underscore (video : Video) :
  (exists n, getVideoName video = Some n) /\
  (has_char "_" (basename (source video)) = false ->
   getVideoName video = Some "") /\
  (forall a b, basename (source video) = a ++ "_" ++ b ->
               has_char "_" a = false ->
               getVideoName video = Some b).
Proof.
  rewrite getVideoName_basename. split; [now eexists|]. split.
  - intros H. now rewrite split_no_sep.
  - intros a b -> Ha. change (a ++ "_" ++ b) with (a ++ String "_" b).
    rewrite split_app_sep, (split_no_sep _ _ Ha). cbn [app tl].
    now rewrite join_split.
Qed.

Lemma getVideoName_reads_after_first_underscore_witness :
  getVideoName (mkVideo "7" "/data/legacy.mp4" empty_format) = Some "" /\
  getVideoName (mkVideo "7" "/data/42_my_clip.mp4" empty_format)
    = Some "my_clip.mp4".
Proof.
  split.
  - apply (getVideoName_reads_after_first_underscore
             (mkVideo "7" "/data/legacy.mp4" empty_format)). reflexivity.
  - destruct (getVideoName_reads_after_first_underscore
                (mkVideo "7" "/data/42_my_clip.mp4" empty_format))
      as (_ & _ & H).
    apply (H "42" "my_clip.mp4"); reflexivity.
Defined.

(** A source without any slash has the empty directory, so everything
    built from it starts at the root: the renamed path is
    [/<timestamp>_...], the derived folders are [/<id>/<resolution>p/], and
    the directory [deleteVideo] removes is [/<id>]. *)
Theorem source_without_directory_goes_to_root (now : Z) (video : Video)
    (newName : string) (resolution : Z) :
  has_char "/" (source video) = false ->
  dirname (source video) = "" /\
  updateVideoPath now (source video) newName =
    "/" ++ number_to_string now ++ "_" ++
    or_undefined (pop (split "." newName)) ++ "." ++
    or_undefined (extension (source video)) /\
  generateEncodedVideoFolderPath video resolution =
    "/" ++ id video ++ "/" ++ number_to_string resolution ++ "p/" /\
  (forall (W : Type) (P : Platform W) (w : W),
      exists st evs,
        deleteVideo video w = (Resolved tt, st, evs) /\
        In (OpRmdir ("/" ++ id video)) (requests evs)).
Proof.
  intros H. pose proof (dirname_no_slash _ H) as Hd.
  split; [exact Hd|]. split; [|split].
  - now rewrite updateVideoPath_unfold, Hd.
  - unfold generateEncodedVideoFolderPath. now rewrite Hd.
  - intros W P w. destruct (deleteVideo_requests video w) as (st & evs & E & R).
    exists st, evs. split; [exact E|]. rewrite R, Hd. right. now left.
Qed.

Lemma source_without_directory_goes_to_root_witness :
  updateVideoPath 100 "clip.mp4" "holiday" = "/100_holiday.mp4" /\
  generateEncodedVideoFolderPath (mkVideo "7" "clip.mp4" empty_format) 720
    = "/7/720p/".
Proof.
  destruct (source_without_directory_goes_to_root 100
              (mkVideo "7" "clip.mp4" empty_format) "holiday" 720 eq_refl)
    as (_ & Hu & Hf & _).
  split; [exact Hu|exact Hf].
Defined.

End PathEdges.

(* ------------------------------------------------------------------ *)
(** ** Pagination *)

Section Pagination.
Import Number Query.

Lemma window_of_page (perPage page i : Z) :
  (0 < perPage)%Z ->
  in_window perPage (perPage * (page - 1)) i = true <->
  page = (i / perPage + 1)%Z.
Proof.
  intros Hpos. unfold in_window.
  rewrite andb_true_iff, Z.leb_le, Z.ltb_lt. split.
  - intros [Hlo Hhi].
    assert (page - 1 = i / perPage)%Z; [|lia].
    apply (Z.div_unique i perPage (page - 1) (i - perPage * (page - 1)));
      lia.
  - intros ->.
    pose proof (Z.mul_div_le i perPage Hpos).
    pose proof (Z.mul_succ_div_gt i perPage Hpos).
    replace (i / perPage + 1 - 1)%Z with (i / perPage)%Z by lia. lia.
Qed.

(** With a positive page size, and as long as [page - 1] and
    [perPage * (page - 1)] are safe integers, so that the product of
    doubles is exact, the pages of [getVideosByUserId] and of the first
    revision of [getVideos] tile the matching rows: both issue the limit
    [perPage] and the offset [perPage * (page - 1)], the row of index [i]
    is in the window of page [i / perPage + 1] and of no other page, and
    page 1 starts at row 0. *)
Theorem pages_tile (perPage page i : Z) (userId : string)
    (fields : Fields) :
  (0 < perPage)%Z ->
  (Z.abs (page - 1) <= max_safe_integer)%Z ->
  (Z.abs (perPage * (page - 1)) <= max_safe_integer)%Z ->
  let byUser := ByUser.getVideosByUserId userId (Int page) (Int perPage) in
  let all := Rev1.getVideos
               (mkFields (name fields) (user fields) (duration fields)
                         (Int page) (Int perPage)) in
  let start := (perPage * (page - 1))%Z in
  ByUser.limit byUser = Int perPage /\
  ByUser.offset byUser = Int start /\
  limit all = Int perPage /\
  offset all = Int start /\
  (in_window perPage start i = true <-> page = (i / perPage + 1)%Z) /\
  (page = 1%Z -> start = 0%Z).
Proof.
  intros Hpos Hp Hn. cbv zeta.
  cbn [ByUser.getVideosByUserId ByUser.limit ByUser.offset Rev1.getVideos
       limit offset Query.perPage Query.page].
  rewrite (offset_safe _ _ Hp Hn).
  repeat split; try reflexivity.
  - now apply window_of_page.
  - now apply window_of_page.
  - intros ->. lia.
Qed.

Lemma pages_tile_witness :
  ByUser.offset (ByUser.getVideosByUserId "4" (Int 3) (Int 10)) = Int 20 /\
  in_window 10 20 25 = true.
Proof.
  destruct (pages_tile 10 3 25 "4"
              (mkFields "" (Int 0) (Int 0) (Int 0) (Int 0)))
    as (_ & Hoff & _ & _ & Hwin & _);
    try (vm_compute; discriminate); [reflexivity|].
  split; [exact Hoff|]. apply Hwin. reflexivity.
Defined.

(** The second revision of [getVideos] with a truthy page size issues the
    same query for every page: its offset is the page size, so for an
    integral page size the window is always [perPage, 2 * perPage) and the
    first [perPage] rows are on no page.  With a falsy page size it falls
    back to pages of 5 rows, which tile as long as [5 * (page - 1)] is a
    safe integer. *)
Theorem getVideos_second_revision_ignores_page (fields : Fields)
    (page page' : number) (i : Z) :
  let at_page p :=
    Rev2.getVideos (mkFields (name fields) (user fields) (duration fields)
                             p (perPage fields)) in
  (truthy (perPage fields) = true ->
   at_page page = at_page page' /\
   limit (at_page page) = perPage fields /\
   offset (at_page page) = perPage fields /\
   (forall n, perPage fields = Int n ->
              (in_window n n i = true <-> (n <= i < 2 * n)%Z))) /\
  (truthy (perPage fields) = false ->
   forall p, page = Int p ->
             (Z.abs (5 * (p - 1)) <= max_safe_integer)%Z ->
             limit (at_page page) = Int 5 /\
             offset (at_page page) = Int (5 * (p - 1)) /\
             (in_window 5 (5 * (p - 1)) i = true <-> p = (i / 5 + 1)%Z)).
Proof.
  cbv zeta. unfold Rev2.getVideos, or_else.
  cbn [limit offset Query.perPage Query.page where_and]. split.
  - intros H. rewrite H.
    split; [reflexivity|]. split; [reflexivity|]. split; [reflexivity|].
    intros n _. unfold in_window.
    rewrite andb_true_iff, Z.leb_le, Z.ltb_lt. lia.
  - intros H p -> Hb. rewrite H. split; [reflexivity|]. split.
    + apply offset_safe; [|exact Hb]. unfold max_safe_integer in *. lia.
    + now apply window_of_page.
Qed.

Lemma getVideos_second_revision_ignores_page_witness :
  Rev2.getVideos (mkFields "clip" (Int 4) (Int 0) (Int 1) (Int 10)) =
  Rev2.getVideos (mkFields "clip" (Int 4) (Int 0) (Int 7) (Int 10)) /\
  offset (Rev2.getVideos (mkFields "clip" (Int 4) (Int 0) (Int 3) (Int 0)))
    = Int 10 /\
  in_window 5 10 12 = true.
Proof.
  split; [|split].
  - apply (getVideos_second_revision_ignores_page
             (mkFields "clip" (Int 4) (Int 0) (Int 1) (Int 10))
             (Int 1) (Int 7) 0). reflexivity.
  - apply (proj2 (getVideos_second_revision_ignores_page
                    (mkFields "clip" (Int 4) (Int 0) (Int 3) (Int 0))
                    (Int 3) (Int 3) 12) eq_refl 3%Z eq_refl).
    vm_compute. discriminate.
  - apply (proj2 (getVideos_second_revision_ignores_page
                    (mkFields "clip" (Int 4) (Int 0) (Int 3) (Int 0))
                    (Int 3) (Int 3) 12) eq_refl 3%Z eq_refl).
    + vm_compute. discriminate.
    + reflexivity.
Defined.

End Pagination.

(* ------------------------------------------------------------------ *)
(** ** [encodeVideo]: settling once, logging always *)

Section EncodeMore.
Import Js Model Encode.

Lemma find_app_some {A : Type} (f : A -> bool) (l l' : list A) (x : A) :
  find f l = Some x -> find f (l ++ l')%list = Some x.
Proof.
  induction l as [|y l IH]; [discriminate|].
  simpl. destruct (f y); auto.
Qed.

Lemma listen_levels (cat : string) (signals : list Signal) (p : Promise) :
  map EncodeRev1.level_of (snd (listen cat signals p)) =
  map (fun s => Some (EncodeRev1.signal_level s)) signals.
Proof.
  revert p. induction signals as [|s rest IH]; intros p; [reflexivity|].
  cbn [listen].
  destruct (on_signal cat s p) as [p1 evs1] eqn:E1.
  specialize (IH p1).
  destruct (listen cat rest p1) as [p2 evs2]. cbn [snd] in *.
  rewrite map_app, IH.
  destruct s; simpl in E1; injection E1 as <- <-; reflexivity.
Qed.

(** Once [encodeVideo]'s promise is settled no later signal changes it,
    while every signal, early or late, still writes its one line to the
    log: errors at error level, the end at info level, progress at trace
    level. *)
Theorem encodeVideo_settles_once (videoPath outputPath : string)
    (resolution : Resolution) (signals later : list Signal) :
  let run := encodeVideo videoPath outputPath resolution in
  (promise_of (run signals) <> Pending ->
   promise_of (run (signals ++ later)%list) = promise_of (run signals)) /\
  map EncodeRev1.level_of (snd (run signals)) =
    map (fun s => Some (EncodeRev1.signal_level s)) signals.
Proof.
  cbv zeta. split.
  - rewrite !promise_of_encodeVideo.
    destruct (truthy outputPath); [|reflexivity].
    destruct (find is_terminal signals) as [s|] eqn:E.
    + intros _. now rewrite (find_app_some _ _ _ _ E).
    + intros H. now contradiction H.
  - unfold encodeVideo.
    pose proof (listen_levels (category videoPath resolution) signals
                  (after_build outputPath)) as H.
    destruct (listen _ signals (after_build outputPath)) as [p evs].
    exact H.
Qed.

Lemma encodeVideo_settles_once_witness :
  promise_of (encodeVideo "/data/42_clip.mp4" "/data/7/720p/50_clip.mp4"
                R720 ([SigProgress (1 # 2); SigEnd] ++
                      [SigError "late"; SigProgress (3 # 1)])%list)
    = Fulfilled.
Proof.
  rewrite (proj1 (encodeVideo_settles_once "/data/42_clip.mp4"
                    "/data/7/720p/50_clip.mp4" R720
                    [SigProgress (1 # 2); SigEnd]
                    [SigError "late"; SigProgress (3 # 1)]));
    [reflexivity|discriminate].
Defined.

Lemma listen_revisions (number_text : Q -> string) (cat : string)
    (signals : list Signal) (p : Promise) :
  fst (EncodeRev1.listen number_text cat signals p) =
    fst (listen cat signals p) /\
  filter EncodeRev1.not_trace
    (snd (EncodeRev1.listen number_text cat signals p)) =
    filter EncodeRev1.not_trace (snd (listen cat signals p)) /\
  map EncodeRev1.level_of
    (snd (EncodeRev1.listen number_text cat signals p)) =
    map EncodeRev1.level_of (snd (listen cat signals p)).
Proof.
  revert p. induction signals as [|s rest IH]; intros p.
  - repeat split.
  - cbn [listen EncodeRev1.listen].
    destruct (EncodeRev1.on_signal number_text cat s p) as [q1 e1] eqn:E1.
    destruct (on_signal cat s p) as [p1 evs1] eqn:E2.
    assert (Hq : q1 = p1)
      by (destruct s; simpl in E1, E2; congruence).
    subst q1. destruct (IH p1) as (Hp & Hf & Hl).
    destruct (EncodeRev1.listen number_text cat rest p1) as [q2 e2].
    destruct (listen cat rest p1) as [p2 evs2].
    cbn [fst snd] in *. rewrite !filter_app, !map_app, Hf, Hl.
    split; [exact Hp|].
    destruct s; simpl in E1, E2; inversion E1; inversion E2; subst;
      split; reflexivity.
Qed.

(** The two revisions of [encodeVideo] hand the same command to the
    engine and settle their promise alike on every sequence of signals;
    their logs have the same lines at the same levels and differ at most
    in the text of the progress lines. *)
Theorem encodeVideo_revisions_agree (number_text : Q -> string)
    (videoPath outputPath : string) (resolution : Resolution)
    (signals : list Signal) :
  let first := EncodeRev1.encodeVideo number_text videoPath outputPath
                 resolution signals in
  let second := encodeVideo videoPath outputPath resolution signals in
  command_of first = command_of second /\
  promise_of first = promise_of second /\
  filter EncodeRev1.not_trace (snd first) =
    filter EncodeRev1.not_trace (snd second) /\
  map EncodeRev1.level_of (snd first) = map EncodeRev1.level_of (snd second).
Proof.
  cbv zeta. unfold EncodeRev1.encodeVideo, encodeVideo.
  destruct (listen_revisions number_text (category videoPath resolution)
              signals (after_build outputPath)) as (Hp & Hf & Hl).
  destruct (EncodeRev1.listen _ _ signals (after_build outputPath))
    as [q e].
  destruct (listen _ signals (after_build outputPath)) as [p evs].
  cbn [fst snd] in *. unfold command_of, promise_of. cbn [fst snd].
  now subst.
Qed.

End EncodeMore.

(* ------------------------------------------------------------------ *)
(** ** [updateVideoName] and [deleteVideo] on every platform *)

Section RenameAnyOutcome.
Context {W : Type} {P : Platform W}.
Import Js Model Paths Trace Layout.

Lemma Resolution_eq_dec (a b : Resolution) : {a = b} + {a <> b}.
Proof. decide equality. Qed.

(** What the loop does to the video object, however it ends: source and
    id stay; an entry outside the keys stays; an entry either stays or,
    if it held a path, holds a rename of that path. *)
Lemma for_of_rename_entries (newName : string) (keys : list Resolution) :
  NoDup keys ->
  forall (st st' : State W) (out : Outcome unit) (evs : list Event),
    for_of keys (rename_derived newName) st = (out, st', evs) ->
    source (obj st') = source (obj st) /\
    id (obj st') = id (obj st) /\
    (forall r, ~ In r keys ->
               format_get r (format (obj st')) =
               format_get r (format (obj st))) /\
    (forall r,
        format_get r (format (obj st')) = format_get r (format (obj st)) \/
        (has_file (format (obj st)) r = true /\
         exists t,
           format_get r (format (obj st')) =
           Some (updateVideoPath t (format_path r (format (obj st)))
                   newName))).
Proof.
  induction keys as [|key keys IH]; intros Hnd st st' out evs Hrun.
  - injection Hrun as <- <- <-. repeat split; auto.
  - inversion Hnd as [|? ? Hnotin Hnd']; subst.
    cbn [for_of] in Hrun. unfold bind in Hrun.
    rewrite rename_derived_run in Hrun.
    destruct (has_file (format (obj st)) key) eqn:Hkey.
    + cbv zeta in Hrun. destruct (date_now (world st)) as [t w1].
      set (oldPath := format_path key (format (obj st))) in *.
      set (newPath := updateVideoPath t oldPath newName) in *.
      destruct (fs_rename oldPath newPath w1) as [r w2].
      set (st1 := mkState w2 (with_format key newPath (obj st))) in *.
      assert (Hget1 : forall r, r <> key ->
                 format_get r (format (obj st1)) =
                 format_get r (format (obj st))).
      { intros r' Hr. unfold st1. cbn [obj with_format format].
        apply format_get_set_other. congruence. }
      assert (Hkey1 : format_get key (format (obj st1)) = Some newPath).
      { unfold st1. cbn [obj with_format format].
        apply format_get_set_same. }
      assert (Hstep :
                source (obj st') = source (obj st1) /\
                id (obj st') = id (obj st1) /\
                (forall r, ~ In r keys ->
                           format_get r (format (obj st')) =
                           format_get r (format (obj st1))) /\
                (forall r,
                    format_get r (format (obj st')) =
                    format_get r (format (obj st1)) \/
                    (has_file (format (obj st1)) r = true /\
                     exists t,
                       format_get r (format (obj st')) =
                       Some (updateVideoPath t
                               (format_path r (format (obj st1)))
                               newName)))).
      { destruct r as [e|].
        - injection Hrun as <- <- <-. repeat split; auto.
        - destruct (for_of keys _ st1) as [[out1 st2] evs1] eqn:E.
          injection Hrun as <- <- <-. exact (IH Hnd' _ _ _ _ E). }
      destruct Hstep as (Hsrc & Hid & Hout & Hin).
      split; [now rewrite Hsrc|]. split; [now rewrite Hid|]. split.
      * intros r' Hr. rewrite Hout by (intros Hr'; apply Hr; now right).
        apply Hget1. intros ->. apply Hr. now left.
      * intros r'. destruct (Resolution_eq_dec r' key) as [->|Hne].
        -- right. split; [exact Hkey|]. exists t.
           now rewrite (Hout key Hnotin), Hkey1.
        -- destruct (Hin r') as [Hsame|[Hfile [t' Ht']]].
           ++ left. now rewrite Hsame, Hget1.
           ++ right. unfold has_file, format_path in *.
              rewrite Hget1 in Hfile, Ht' by assumption.
              split; [exact Hfile|now exists t'].
    + destruct (for_of keys _ st) as [[out1 st2] evs1] eqn:E.
      injection Hrun as <- <- <-.
      destruct (IH Hnd' _ _ _ _ E) as (Hsrc & Hid & Hout & Hin).
      repeat split; auto.
      intros r' Hr. apply Hout. intros Hr'. apply Hr. now right.
Qed.

(** A loop left by a rejection stopped at a key whose entry held a path:
    the move of that path failed, and the entry already holds the path the
    file was to be moved to. *)
Lemma for_of_rename_rejected (newName : string) (keys : list Resolution) :
  NoDup keys ->
  forall (st st' : State W) (e : Error) (evs : list Event),
    for_of keys (rename_derived newName) st = (Rejected e, st', evs) ->
    exists done r t,
      In r keys /\
      has_file (format (obj st)) r = true /\
      evs = (map moved done ++
             [Did (OpRename
                     (format_path r (format (obj st)))
                     (updateVideoPath t (format_path r (format (obj st)))
                        newName))
                  (Some e)])%list /\
      format_get r (format (obj st')) =
      Some (updateVideoPath t (format_path r (format (obj st))) newName).
Proof.
  induction keys as [|key keys IH]; intros Hnd st st' e evs Hrun.
  - discriminate.
  - inversion Hnd as [|? ? Hnotin Hnd']; subst.
    cbn [for_of] in Hrun. unfold bind in Hrun.
    rewrite rename_derived_run in Hrun.
    destruct (has_file (format (obj st)) key) eqn:Hkey.
    + cbv zeta in Hrun. destruct (date_now (world st)) as [t w1].
      set (oldPath := format_path key (format (obj st))) in *.
      set (newPath := updateVideoPath t oldPath newName) in *.
      destruct (fs_rename oldPath newPath w1) as [[e'|] w2].
      * injection Hrun as <- <- <-. exists [], key, t.
        split; [now left|]. split; [exact Hkey|]. split; [reflexivity|].
        cbn [obj with_format format]. apply format_get_set_same.
      * set (st1 := mkState w2 (with_format key newPath (obj st))) in *.
        destruct (for_of keys _ st1) as [[out1 st2] evs1] eqn:E.
        destruct out1 as [[]|e1]; [discriminate|].
        injection Hrun as <- <- <-.
        destruct (IH Hnd' _ _ _ _ E) as (done & r & t' & Hr & Hf & He & Hg).
        assert (Hne : r <> key) by (intros ->; contradiction).
        assert (Hget1 : format_get r (format (obj st1)) =
                        format_get r (format (obj st))).
        { unfold st1. cbn [obj with_format format].
          apply format_get_set_other. congruence. }
        unfold has_file, format_path in *. rewrite Hget1 in *.
        exists ((oldPath, newPath) :: done), r, t'.
        split; [now right|]. split; [exact Hf|]. split; [|exact Hg].
        rewrite He. reflexivity.
    + destruct (for_of keys _ st) as [[out1 st2] evs1] eqn:E.
      destruct out1 as [[]|e1]; [discriminate|].
      injection Hrun as <- <- <-.
      destruct (IH Hnd' _ _ _ _ E) as (done & r & t' & Hr & Hf & He & Hg).
      exists done, r, t'. split; [now right|]. now repeat split.
Qed.

End RenameAnyOutcome.

Section RenameInvariants.
Context {W : Type} {P : Platform W}.
Import Js Model Paths Trace Layout.

(** The video object after a run, whatever the outcome. *)
Lemma updateVideoName_object (video : Video) (newName : string) (w : W)
    (out : Outcome Video) (st' : State W) (evs : list Event) :
  updateVideoName video newName w = (out, st', evs) ->
  exists t1 w1 t2 w2 r1,
    date_now w = (t1, w1) /\
    date_now w1 = (t2, w2) /\
    hd_error evs =
      Some (Did (OpRename (source video)
                          (updateVideoPath t1 (source video) newName)) r1) /\
    source (obj st') = updateVideoPath t2 (source video) newName /\
    id (obj st') = id video /\
    (forall r,
        format_get r (format (obj st')) = format_get r (format video) \/
        (has_file (format video) r = true /\
         exists t,
           format_get r (format (obj st')) =
           Some (updateVideoPath t (format_path r (format video))
                   newName))).
Proof.
  intros Hrun. pose proof (updateVideoName_run video newName w) as Heq.
  cbv zeta in Heq.
  destruct (date_now w) as [t1 w1] eqn:E1.
  destruct (date_now w1) as [t2 w2] eqn:E2.
  destruct (fs_rename _ _ w2) as [r1 w3] eqn:Er.
  exists t1, w1, t2, w2, r1. split; [reflexivity|]. split; [exact E2|].
  rewrite Heq in Hrun. clear Heq. destruct r1 as [e|].
  - injection Hrun as <- <- <-. repeat split; auto.
  - destruct (for_of _ _ _) as [[out1 st1] evs1] eqn:E.
    destruct (for_of_rename_entries _ _ (object_keys_NoDup _) _ _ _ _ E)
      as (Hsrc & Hid & _ & Hin).
    cbn [obj with_source source id format] in Hsrc, Hid, Hin.
    destruct out1 as [[]|e].
    + destruct (video_save _ _) as [rs w4].
      injection Hrun as <- <- <-. cbn [obj]. repeat split; auto.
    + injection Hrun as <- <- <-. repeat split; auto.
Qed.

(** [updateVideoName] moves the primary file to a path built with one
    clock reading and records as the source a path built with the next
    one.  The recorded source is the path the file was moved to exactly
    when the two readings are equal; it is what every save of the run
    stores, whatever else the run does. *)
Theorem updateVideoName_source_and_moved_file (video : Video)
    (newName : string) (w : W) (out : Outcome Video) (st' : State W)
    (evs : list Event) :
  updateVideoName video newName w = (out, st', evs) ->
  exists t1 w1 t2 w2 r1,
    date_now w = (t1, w1) /\
    date_now w1 = (t2, w2) /\
    hd_error evs =
      Some (Did (OpRename (source video)
                          (updateVideoPath t1 (source video) newName)) r1) /\
    source (obj st') = updateVideoPath t2 (source video) newName /\
    (source (obj st') = updateVideoPath t1 (source video) newName <->
     t1 = t2) /\
    (forall v, In v (saves evs) ->
               source v = updateVideoPath t2 (source video) newName).
Proof.
  intros Hrun.
  destruct (updateVideoName_object _ _ _ _ _ _ Hrun)
    as (t1 & w1 & t2 & w2 & r1 & H1 & H2 & Hhd & Hsrc & _).
  exists t1, w1, t2, w2, r1. repeat split; trivial.
  - rewrite Hsrc. intros H.
    apply updateVideoPath_same_path_inv in H. now symmetry.
  - intros ->. exact Hsrc.
  - intros v Hv.
    destruct (updateVideoName_events _ _ _ _ _ _ Hrun) as [done Hd].
    destruct out as [v0|e].
    + destruct Hd as [-> ->].
      rewrite saves_app, saves_moved in Hv. cbn in Hv.
      destruct Hv as [<-|[]]. exact Hsrc.
    + destruct Hd as [op ->].
      rewrite saves_app, saves_moved in Hv. destruct op; contradiction.
Qed.

(** [updateVideoName] keeps the asset laid out: if the source is a file
    with an extension and every entry of the format map names such a file
    in the folder of its resolution, the same holds of the video object
    after the call, whatever its outcome, provided the part of the new
    name after its last dot holds no slash. *)
Theorem updateVideoName_keeps_layout (video : Video) (newName : string)
    (w : W) (out : Outcome Video) (st' : State W) (evs : list Event) :
  layout_ok video = true ->
  has_char "/" (or_undefined (pop (split "." newName))) = false ->
  updateVideoName video newName w = (out, st', evs) ->
  layout_ok (obj st') = true.
Proof.
  intros Hok Hseg Hrun. unfold layout_ok in *.
  apply andb_true_iff in Hok as [Hsrc_ok Hentries].
  destruct (updateVideoName_object _ _ _ _ _ _ Hrun)
    as (t1 & w1 & t2 & w2 & r1 & _ & _ & _ & Hsrc & Hid & Hin).
  pose proof (extension_of_file_clean _ Hsrc_ok) as Hext.
  apply andb_true_iff. split.
  - rewrite Hsrc. now apply updateVideoPath_basename_dot.
  - assert (Hfolder : forall z,
               generateEncodedVideoFolderPath (obj st') z =
               generateEncodedVideoFolderPath video z).
    { intros z. unfold generateEncodedVideoFolderPath.
      now rewrite Hsrc, Hid, updateVideoPath_dirname. }
    apply forallb_forall. intros r Hr.
    rewrite forallb_forall in Hentries. specialize (Hentries r Hr).
    unfold entry_ok in *. rewrite Hfolder.
    destruct (Hin r) as [Hsame|[Hfile [t Ht]]].
    + now rewrite Hsame.
    + rewrite Ht. unfold has_file, format_path in *.
      destruct (format_get r (format video)) as [p0|]; [|discriminate].
      rewrite Hfile in Hentries. unfold in_folder in *.
      apply andb_true_iff in Hentries as [Hdir Hdot].
      pose proof (extension_of_file_clean _ Hdot) as Hext0.
      destruct (truthy (updateVideoPath t p0 newName)); [|reflexivity].
      rewrite updateVideoPath_dirname by assumption. rewrite Hdir.
      now apply updateVideoPath_basename_dot.
Qed.

(** Whatever its outcome, [updateVideoName] leaves the id of the video
    and the keys of its format map as they were, and it never changes an
    extension: the source and every entry keep theirs. *)
Theorem updateVideoName_keeps_id_keys_extensions (video : Video)
    (newName : string) (w : W) (out : Outcome Video) (st' : State W)
    (evs : list Event) :
  updateVideoName video newName w = (out, st', evs) ->
  id (obj st') = id video /\
  object_keys (format (obj st')) = object_keys (format video) /\
  extension (source (obj st')) = extension (source video) /\
  (forall r p, format_get r (format video) = Some p ->
               exists p', format_get r (format (obj st')) = Some p' /\
                          extension p' = extension p).
Proof.
  intros Hrun.
  destruct (updateVideoName_object _ _ _ _ _ _ Hrun)
    as (t1 & w1 & t2 & w2 & r1 & _ & _ & _ & Hsrc & Hid & Hin).
  split; [exact Hid|]. split; [|split].
  - unfold object_keys. apply filter_ext. intros r.
    destruct (Hin r) as [->|[Hfile [t ->]]]; [reflexivity|].
    unfold has_file in Hfile.
    now destruct (format_get r (format video)).
  - rewrite Hsrc. apply updateVideoPath_extension.
  - intros r p Hp. destruct (Hin r) as [Hsame|[_ [t Ht]]].
    + exists p. split; [congruence|reflexivity].
    + eexists. split; [exact Ht|].
      unfold format_path. rewrite Hp. apply updateVideoPath_extension.
Qed.

End RenameInvariants.

Section NoRollback.
Context {W : Type} {P : Platform W}.
Import Js Model Paths Trace Layout.

Lemma failed_not_moved (op : Op) (e : Error)
    (done : list (string * string)) :
  ~ In (Did op (Some e)) (map moved done).
Proof.
  induction done as [|m done IH]; [intros []|].
  intros [H|H]; [discriminate|contradiction].
Qed.

(** When a move fails after the primary file has been moved, it is the
    move of a derived file, and [updateVideoName] stops there: the call is
    rejected with the error of that move, the moves already made are not
    undone, nothing is saved, and the entry of the failed resolution
    already holds the path its file did not reach. *)
Theorem updateVideoName_failed_derived_move (video : Video)
    (newName : string) (w : W) (out : Outcome Video) (st' : State W)
    (evs : list Event) (from to : string) (e : Error) :
  updateVideoName video newName w = (out, st', evs) ->
  moves evs <> [] ->
  In (Did (OpRename from to) (Some e)) evs ->
  out = Rejected e /\
  evs = (map moved (moves evs) ++
         [Did (OpRename from to) (Some e)])%list /\
  saves evs = [] /\
  (exists t, hd_error (moves evs) =
             Some (source video,
                   updateVideoPath t (source video) newName)) /\
  (exists r t,
      has_file (format video) r = true /\
      from = format_path r (format video) /\
      to = updateVideoPath t from newName /\
      format_get r (format (obj st')) = Some to).
Proof.
  intros Hrun Hmoved Hfail.
  pose proof (updateVideoName_run video newName w) as Heq.
  cbv zeta in Heq.
  destruct (date_now w) as [t1 w1], (date_now w1) as [t2 w2].
  destruct (fs_rename _ _ w2) as [[e1|] w3]; rewrite Heq in Hrun; clear Heq.
  { injection Hrun as <- <- <-. now contradiction Hmoved. }
  destruct (for_of _ _ _) as [[out1 st1] evs1] eqn:E.
  set (primary := (source video,
                   updateVideoPath t1 (source video) newName)) in *.
  destruct out1 as [[]|e1].
  - destruct (for_of_rename_events _ _ _ _ _ _ E)
      as [done [[_ ->]|(? & ? & ? & [=] & _)]].
    destruct (video_save _ _) as [rs w4]. injection Hrun as <- <- <-.
    exfalso. destruct Hfail as [Hfail|Hfail]; [discriminate|].
    apply in_app_or in Hfail as [Hfail|[Hfail|[]]].
    + now apply failed_not_moved in Hfail.
    + discriminate.
  - destruct (for_of_rename_rejected _ _ (object_keys_NoDup _) _ _ _ _ E)
      as (done & r & t & _ & Hfile & -> & Hget).
    cbn [obj with_source format] in Hfile, Hget.
    injection Hrun as <- <- <-.
    assert (Hlast : Did (OpRename from to) (Some e) =
                    Did (OpRename (format_path r (format video))
                           (updateVideoPath t
                              (format_path r (format video)) newName))
                        (Some e1)).
    { destruct Hfail as [Hfail|Hfail]; [discriminate|].
      apply in_app_or in Hfail as [Hfail|[Hfail|[]]]; [|now symmetry].
      now apply failed_not_moved in Hfail. }
    injection Hlast as -> -> ->.
    assert (Hmoves : moves (Did (OpRename (fst primary) (snd primary)) None
                            :: map moved done ++
                               [Did (OpRename
                                       (format_path r (format video))
                                       (updateVideoPath t
                                          (format_path r (format video))
                                          newName)) (Some e1)])
                     = primary :: done).
    { cbn [moves fst snd primary]. rewrite moves_app, moves_moved.
      cbn [moves]. now rewrite app_nil_r. }
    change (Did (OpRename (source video)
                   (updateVideoPath t1 (source video) newName)) None)
      with (Did (OpRename (fst primary) (snd primary)) None).
    rewrite Hmoves.
    split; [reflexivity|]. split; [reflexivity|]. split; [|split].
    + cbn [saves]. rewrite saves_app, saves_moved. reflexivity.
    + now exists t1.
    + exists r, t. now repeat split.
Qed.

(** [deleteVideo] is best effort on every platform: it returns normally,
    it asks for the removal of the primary file, of the directory
    [<sourceDir>/<id>] and of the record, in this order and whatever each
    request answers, and it logs a failed removal of the file or of the
    directory at error level.  Every derived folder lies under the
    directory it removes. *)
Theorem deleteVideo_best_effort (video : Video) (w : W) :
  let dir := dirname (source video) ++ "/" ++ id video in
  exists st evs,
    deleteVideo video w = (Resolved tt, st, evs) /\
    obj st = video /\
    requests evs = [OpRm (source video); OpRmdir dir; OpDestroy video] /\
    (forall e, In (Did (OpRm (source video)) (Some e)) evs ->
               In (LvlError, e) (logged evs)) /\
    (forall e, In (Did (OpRmdir dir) (Some e)) evs ->
               In (LvlError, e) (logged evs)) /\
    (forall resolution,
        Js.starts_with (dir ++ "/")
          (generateEncodedVideoFolderPath video resolution) = true).
Proof.
  cbv zeta. pose proof (deleteVideo_run video w) as H. cbv zeta in H.
  destruct (fs_rm (source video) w) as [r1 w1].
  destruct (fs_rmdir _ w1) as [r2 w2].
  destruct (video_destroy video w2) as [r3 w3].
  rewrite H. do 2 eexists. split; [reflexivity|]. split; [reflexivity|].
  split; [destruct r1, r2, r3; reflexivity|]. split; [|split].
  - intros e He. destruct r1 as [e1|], r2 as [e2|], r3 as [e3|];
      cbn in He |- *;
      repeat match goal with
             | H : _ \/ _ |- _ => destruct H
             end;
      try discriminate; try contradiction;
      match goal with
      | H : Did _ _ = Did _ _ |- _ => injection H as <-
      end; auto.
  - intros e He. destruct r1 as [e1|], r2 as [e2|], r3 as [e3|];
      cbn in He |- *;
      repeat match goal with
             | H : _ \/ _ |- _ => destruct H
             end;
      try discriminate; try contradiction;
      match goal with
      | H : Did _ _ = Did _ _ |- _ => injection H as <-
      end; auto.
  - intros resolution. unfold generateEncodedVideoFolderPath, Js.starts_with.
    replace (dirname (source video) ++ "/" ++ id video ++ "/" ++
             Js.number_to_string resolution ++ "p/")
      with (((dirname (source video) ++ "/" ++ id video) ++ "/") ++
            Js.number_to_string resolution ++ "p/")
      by now rewrite !string_app_assoc.
    apply prefix_app.
Qed.

End NoRollback.

Section MoreExamples.
Import Js Model Paths Trace Layout Disk.

Lemma updateVideoName_source_and_moved_file_witness :
  exists out st' evs,
    updateVideoName clip "holiday" clip_disk = (out, st', evs) /\
    source (obj st') = "/data/101_holiday.mp4" /\
    hd_error (moves evs) = Some ("/data/42_clip.mp4", "/data/100_holiday.mp4").
Proof.
  eassert (Hrun : updateVideoName clip "holiday" clip_disk = (_, _, _))
    by (vm_compute; reflexivity).
  do 3 eexists. split; [exact Hrun|].
  destruct (updateVideoName_source_and_moved_file _ _ _ _ _ _ Hrun)
    as (t1 & w1 & t2 & w2 & r1 & H1 & H2 & _ & Hsrc & _).
  injection H1 as <- <-. injection H2 as <- <-.
  split; [exact Hsrc|reflexivity].
Defined.

Lemma updateVideoName_keeps_layout_witness :
  layout_ok clip = true /\
  exists out st' evs,
    updateVideoName clip "holiday" clip_disk = (out, st', evs) /\
    layout_ok (obj st') = true.
Proof.
  split; [reflexivity|].
  eassert (Hrun : updateVideoName clip "holiday" clip_disk = (_, _, _))
    by (vm_compute; reflexivity).
  do 3 eexists. split; [exact Hrun|].
  exact (updateVideoName_keeps_layout clip "holiday" clip_disk _ _ _
           eq_refl eq_refl Hrun).
Defined.

Lemma updateVideoName_keeps_id_keys_extensions_witness :
  exists out st' evs,
    updateVideoName clip "holiday"
      (mkDisk [100; 100; 102]%Z ["/data/42_clip.mp4"] true [clip])
      = (out, st', evs) /\
    object_keys (format (obj st')) = [R480; R720].
Proof.
  eassert (Hrun : updateVideoName clip "holiday"
                    (mkDisk [100; 100; 102]%Z ["/data/42_clip.mp4"] true
                            [clip]) = (_, _, _))
    by (vm_compute; reflexivity).
  do 3 eexists. split; [exact Hrun|].
  destruct (updateVideoName_keeps_id_keys_extensions _ _ _ _ _ _ Hrun)
    as (_ & Hkeys & _).
  rewrite Hkeys. reflexivity.
Defined.

(** The file at 720 is missing: the primary file and the file at 480 are
    moved, the move at 720 fails. *)
Lemma updateVideoName_failed_derived_move_witness :
  exists out st' evs,
    updateVideoName clip "holiday"
      (mkDisk [100; 100; 102; 103]%Z
              ["/data/42_clip.mp4"; "/data/7/480p/50_clip.mp4"] true [clip])
      = (out, st', evs) /\
    out = Rejected "ENOENT: /data/7/720p/51_clip.mp4" /\
    length (moves evs) = 2%nat /\
    saves evs = [].
Proof.
  eassert (Hrun : updateVideoName clip "holiday"
                    (mkDisk [100; 100; 102; 103]%Z
                       ["/data/42_clip.mp4"; "/data/7/480p/50_clip.mp4"]
                       true [clip]) = (_, _, _))
    by (vm_compute; reflexivity).
  do 3 eexists. split; [exact Hrun|].
  destruct (updateVideoName_failed_derived_move _ _ _ _ _ _
              "/data/7/720p/51_clip.mp4" "/data/7/720p/103_holiday.mp4"
              "ENOENT: /data/7/720p/51_clip.mp4" Hrun)
    as (Hout & _ & Hsaves & _).
  - discriminate.
  - cbn. tauto.
  - split; [exact Hout|]. split; [reflexivity|exact Hsaves].
Defined.

(** The primary file is already gone: the failure is logged, the directory
    and the record are removed all the same. *)
Lemma deleteVideo_best_effort_witness :
  exists st evs,
    deleteVideo clip (mkDisk [] ["/data/7/480p/50_clip.mp4"] true [clip])
      = (Resolved tt, st, evs) /\
    In (LvlError, "ENOENT: /data/42_clip.mp4") (logged evs) /\
    requests evs =
      [OpRm "/data/42_clip.mp4"; OpRmdir "/data/7"; OpDestroy clip].
Proof.
  destruct (deleteVideo_best_effort clip
              (mkDisk [] ["/data/7/480p/50_clip.mp4"] true [clip]))
    as (st & evs & Hrun & _ & Hreq & Hrm & _).
  exists st, evs. split; [exact Hrun|]. split; [|exact Hreq].
  apply Hrm. vm_compute in Hrun. injection Hrun as _ <-. now left.
Defined.

End MoreExamples.
